(** * PyProf [parse.py]: the kernel/marker correlation loop of [main]

    A shallow embedding of the two loops of [main] in
    [pyprof/parse/parse.py]: the loop over the kernels (zero pruning of
    the sequence ids, choice of [currSeqId], [subSeqId], the move of the
    other ids to [altSeqId], the removal of the used markers) and the loop
    over the markers that are left (the "cpu_kernel" records).

    Python integers are [Z], Python lists are [list], the [markers] dict
    is a [gmap], and a raised exception is the [Raise] outcome. *)

From Stdlib Require Import ZArith String.
From stdpp Require Import base decidable option numbers list sorting gmap strings.

Local Open Scope string_scope.
Local Open Scope Z_scope.
Local Open Scope list_scope.

(** ** Exceptions *)

Inductive pyerr :=
  | AssertionError   (* [assert] *)
  | IndexError       (* [l[i]] out of range *)
  | ValueError       (* [l.remove(x)] with [x] not in [l] *)
  | KeyError         (* [d[k]] with [k] not in [d] *)
  | TypeError        (* [x[k]] or [k in x] on a value that has no such operation *)
  | EvalError        (* [eval] of a text that is not an expression *)
  | OutOfFuel.       (* the bound of a modelled [for] loop was reached; never
                        happens, see [move_to_alt_total], [drop_curr_total] *)

Inductive outcome (A : Type) :=
  | Ok (a : A)
  | Raise (e : pyerr).
Arguments Ok {A} a.
Arguments Raise {A} e.

Global Instance outcome_ret : MRet outcome := λ A a, Ok a.
Global Instance outcome_bind : MBind outcome := λ A B f m,
  match m with
  | Ok a => f a
  | Raise e => Raise e
  end.

(** ** Python list operations *)

(** [l[i]] for [i >= 0] *)
Definition py_index {A} (l : list A) (i : nat) : outcome A :=
  match l !! i with
  | Some a => Ok a
  | None => Raise IndexError
  end.

(** [l[-1]] *)
Definition py_last {A} (l : list A) : outcome A :=
  match last l with
  | Some a => Ok a
  | None => Raise IndexError
  end.

(** [l.remove(x)]: the first occurrence of [x] goes *)
Fixpoint py_remove (x : Z) (l : list Z) : outcome (list Z) :=
  match l with
  | [] => Raise ValueError
  | y :: l' =>
      if decide (y = x) then Ok l'
      else l'' ← py_remove x l'; Ok (y :: l'')
  end.

(** [l = list(set(l)); if len(l): l.sort()] *)
Definition list_set_sort (l : list Z) : list Z :=
  merge_sort Z.le (elements (list_to_set l : gset Z)).

(** ** The kernel object and the state of the loop *)

(** The fields of [Kernel] that the loop reads or writes.  The class is
    in [kernel.py]; [dir], [op] and [mod] are what its [setDirection] and
    [setOp] leave in the object, [seqId], [altSeqId], [subSeqId] and
    [callid] what [setMarkerInfo] does. *)
Record Kernel := mkKernel {
  seqId : list Z;
  altSeqId : list Z;
  subSeqId : Z;
  dir : string;
  op : list string;
  mod_ : list string;
  callid : list Z
}.

(** [prevOp] starts as the string ["na"] and is a list of strings later. *)
Inductive pyop :=
  | OpStr (s : string)
  | OpList (l : list string).

(** [k.op == prevOp]: a list is never equal to a string *)
Definition op_eq (o : list string) (p : pyop) : bool :=
  match p with
  | OpStr _ => false
  | OpList l => bool_decide (o = l)
  end.

Record FoldState := mkFold {
  prevSeqId : Z;
  prevSubSeqId : Z;
  prevOp : pyop
}.

(** [prevSeqId = -1], [prevSubSeqId = -1], [prevOp = "na"] *)
Definition init_fold : FoldState :=
  {| prevSeqId := -1; prevSubSeqId := -1; prevOp := OpStr "na" |}.

(** ** One kernel *)

(** [if any(seq != 0 for seq in k.seqId) and (0 in k.seqId): k.seqId.remove(0)] *)
Definition zero_prune (seqId : list Z) : outcome (list Z) :=
  if existsb (λ seq, negb (bool_decide (seq = 0))) seqId && bool_decide (0 ∈ seqId)
  then py_remove 0 seqId
  else Ok seqId.

(** The choice of [currSeqId], lines 114-122. *)
Definition select_currSeqId (dir : string) (seqId : list Z) (prevSeqId : Z)
  : outcome Z :=
  if decide (dir = "fprop") then
    z ← py_last seqId;
    let inc := bool_decide (prevSeqId < z) in
    if inc then py_index (filter (λ x, prevSeqId < x) seqId) 0
    else Ok prevSeqId
  else py_index seqId 0.

Definition recurrent_cells : list string := ["LSTMCell"; "GRUCell"; "RNNCell"].

(** The test of line 125; [and] and [or] evaluate from the left and stop
    as soon as the value is known, so [k.op[0]] and [k.mod[0]] are only
    read when the tests before them ask for it. *)
Definition subseq_cond (currSeqId : Z) (st : FoldState) (k : Kernel)
  : outcome bool :=
  if bool_decide (currSeqId = prevSeqId st) && op_eq (op k) (prevOp st)
  then Ok true
  else
    op0 ← py_index (op k) 0;
    if bool_decide (op0 = "forward") && op_eq (op k) (prevOp st) then
      mod0 ← py_index (mod_ k) 0;
      Ok (bool_decide (mod0 ∈ recurrent_cells))
    else Ok false.

(** [for s in k.seqId: if s != currSeqId: k.seqId.remove(s); k.altSeqId.append(s)]

    The loop walks the list it changes: the iterator is the index [i]
    of the next element, the loop ends when [i] is no index of the list as
    it is then. *)
Fixpoint move_to_alt_loop (fuel : nat) (currSeqId : Z) (i : nat)
    (seqId altSeqId : list Z) : outcome (list Z * list Z) :=
  match seqId !! i with
  | None => Ok (seqId, altSeqId)
  | Some s =>
      match fuel with
      | O => Raise OutOfFuel
      | S fuel =>
          if decide (s ≠ currSeqId) then
            seqId' ← py_remove s seqId;
            move_to_alt_loop fuel currSeqId (S i) seqId' (altSeqId ++ [s])
          else move_to_alt_loop fuel currSeqId (S i) seqId altSeqId
      end
  end.

Definition move_to_alt (currSeqId : Z) (seqId altSeqId : list Z) :=
  move_to_alt_loop (length seqId) currSeqId 0 seqId altSeqId.

(** [for s in k.altSeqId: if s == currSeqId: k.altSeqId.remove(s)] *)
Fixpoint drop_curr_loop (fuel : nat) (currSeqId : Z) (i : nat)
    (altSeqId : list Z) : outcome (list Z) :=
  match altSeqId !! i with
  | None => Ok altSeqId
  | Some s =>
      match fuel with
      | O => Raise OutOfFuel
      | S fuel =>
          if decide (s = currSeqId) then
            altSeqId' ← py_remove s altSeqId;
            drop_curr_loop fuel currSeqId (S i) altSeqId'
          else drop_curr_loop fuel currSeqId (S i) altSeqId
      end
  end.

Definition drop_curr (currSeqId : Z) (altSeqId : list Z) :=
  drop_curr_loop (length altSeqId) currSeqId 0 altSeqId.

(** Lines 94-146 for one kernel [k], as [setMarkerInfo] left it: the new
    values of [prevSeqId], [prevSubSeqId], [prevOp] and the kernel that
    [k.print()] gets. *)
Definition kernel_step (st : FoldState) (k : Kernel)
  : outcome (FoldState * Kernel) :=
  seqId0 ← zero_prune (seqId k);
  if decide (seqId0 = []) then
    Ok (st, mkKernel seqId0 (altSeqId k) (subSeqId k) (dir k) (op k) (mod_ k) (callid k))
  else if negb (bool_decide (dir k ∈ ["fprop"; "bprop"])) then Raise AssertionError
  else
    currSeqId ← select_currSeqId (dir k) seqId0 (prevSeqId st);
    c ← subseq_cond currSeqId st k;
    let subSeqId' := if c : bool then prevSubSeqId st + 1 else subSeqId k in
    let st' := mkFold currSeqId subSeqId' (OpList (op k)) in
    '(seqId1, altSeqId1) ← move_to_alt currSeqId seqId0 (altSeqId k);
    altSeqId2 ← drop_curr currSeqId altSeqId1;
    Ok (st', mkKernel seqId1 (list_set_sort altSeqId2) subSeqId'
               (dir k) (op k) (mod_ k) (callid k)).

(** The forward rule as the specification words it: the least id of
    [seqId] above [prevSeqId] when there is one, [prevSeqId] otherwise. *)
Definition fprop_min_rule (seqId : list Z) (prevSeqId canonical : Z) : Prop :=
  ((∃ s, s ∈ seqId ∧ prevSeqId < s) →
   canonical ∈ seqId ∧ prevSeqId < canonical ∧
   ∀ s, s ∈ seqId → prevSeqId < s → canonical ≤ s) ∧
  ((∀ s, s ∈ seqId → s ≤ prevSeqId) → canonical = prevSeqId).

(** The rule for [subSeqId] as the specification words it: the id chosen
    is the last one and the operation is the last one, or the operation
    starts with "forward", is the last one, and the module starts with the
    name of a recurrent cell. *)
Definition subseq_rule (canonical : Z) (st : FoldState) (k : Kernel) : Prop :=
  (canonical = prevSeqId st ∧ prevOp st = OpList (op k)) ∨
  (head (op k) = Some "forward" ∧ prevOp st = OpList (op k) ∧
   ∃ m, head (mod_ k) = Some m ∧ m ∈ recurrent_cells).

(** Modelled from the spec: the value of [subSeqId] in a fresh [Kernel],
    which [kernel.py] sets and [parse.py] only overwrites ("Defaults to 0"). *)
Definition default_subSeqId : Z := 0.

(** A kernel with sequence ids as the loop can work on it: a direction
    that the [assert] of line 113 lets through, and a first token in [op]
    and in [mod] for line 125 to read. *)
Definition seq_kernel (k : Kernel) : Prop :=
  seqId k ≠ [] ∧ dir k ∈ ["fprop"; "bprop"] ∧ op k ≠ [] ∧ mod_ k ≠ [].

(** [subSeqId] of the kernel printed follows the rule: the last
    [subSeqId] plus one when the rule applies to the id chosen (which is
    [prevSeqId] after the step), the default otherwise. *)
Definition subSeqId_by_rule (st : FoldState) (k : Kernel)
    (st' : FoldState) (k' : Kernel) : Prop :=
  (subseq_rule (prevSeqId st') st k ∧ subSeqId k' = prevSubSeqId st + 1) ∨
  (¬ subseq_rule (prevSeqId st') st k ∧ subSeqId k' = default_subSeqId).

(** ** The loop over the kernels *)

(** [for callid in k.callid: if callid in markers: markers.pop(callid)]:
    the dict that is left and the ids for which [pop] ran, in order. *)
Fixpoint pop_callids (callids : list Z) (markers : gmap Z (list string))
  : gmap Z (list string) * list Z :=
  match callids with
  | [] => (markers, [])
  | callid :: rest =>
      if decide (is_Some (markers !! callid)) then
        let '(m, pops) := pop_callids rest (delete callid markers) in
        (m, callid :: pops)
      else pop_callids rest markers
  end.

(** What the loop has done so far: the three [prev] variables, the
    [markers] dict, the kernels printed and the ids popped from [markers]. *)
Record Run := mkRun {
  fstate : FoldState;
  markers : gmap Z (list string);
  printed : list Kernel;
  popped : list Z
}.

(** The body of the loop of line 80.  [kInfo[i]] is taken with the marker
    info that [nvvp.getMarkerInfo] finds for it already in the object. *)
Definition kernel_iter (r : Run) (k : Kernel) : outcome Run :=
  '(st', k') ← kernel_step (fstate r) k;
  let '(m, pops) := pop_callids (callid k') (markers r) in
  Ok (mkRun st' m (printed r ++ [k']) (popped r ++ pops)).

(** The loop; an exception ends the run where it is raised, what was
    printed before stays printed. *)
Fixpoint main_kernels (r : Run) (kInfo : list Kernel) : Run * option pyerr :=
  match kInfo with
  | [] => (r, None)
  | k :: rest =>
      match kernel_iter r k with
      | Ok r' => main_kernels r' rest
      | Raise e => (r, Some e)
      end
  end.

(** ** The loop over the markers that are left *)

(** The values found in an evaluated marker text. *)
Inductive pyval :=
  | VInt (z : Z)
  | VStr (s : string)
  | VList (l : list string).

Global Instance pyval_eq_dec : EqDecision pyval.
Proof. solve_decision. Defined.

(** [d[key]] on a dict *)
Definition py_getitem (d : gmap string pyval) (key : string) : outcome pyval :=
  match d !! key with
  | Some v => Ok v
  | None => Raise KeyError
  end.

(** What [eval] gives for a marker text: a dict, which is what the loop
    expects, or any other value.  Of a dict, the entries under string keys:
    the loop asks for no other.  An integer stands for the values that
    have neither [in] nor subscripts (also [None], a float), a list of
    strings for the sequences (also a tuple or a set; of their elements
    only the strings can be equal to the key asked for). *)
Inductive pyobj :=
  | ODict (d : gmap string pyval)
  | OVal (v : pyval).

(** [x[key]] for a string [key]: only a dict has it *)
Definition py_subscript (x : pyobj) (key : string) : outcome pyval :=
  match x with
  | ODict d => py_getitem d key
  | OVal _ => Raise TypeError
  end.

(** [sub in s] for two strings *)
Definition py_in_str (sub s : string) : bool :=
  bool_decide (is_Some (index 0 sub s)).

(** [key in x] for a string [key]: a key of a dict, a part of a string,
    an element of a list; an integer has no [in] *)
Definition py_contains (key : string) (x : pyobj) : outcome bool :=
  match x with
  | ODict d => Ok (bool_decide (is_Some (d !! key)))
  | OVal (VStr s) => Ok (py_in_str key s)
  | OVal (VList l) => Ok (bool_decide (key ∈ l))
  | OVal (VInt _) => Raise TypeError
  end.

(** The record printed for a marker without kernel. *)
Record CpuKernel := mkCpu {
  marker_fn : pyval;
  marker_txt : list string;
  rStartTime : pyval;
  rEndTime : pyval;
  pid : Z;
  tid : pyval;
  objId : pyval;
  kDuration : Z;
  kernelName : string
}.

(** The dict that [nvvp.getAllMarkers] returns: its items in the order
    in which they were put in, which is the order in which [for] walks a
    dict, with no key twice. *)
Record pydict := PyDict {
  py_items : list (Z * list string);
  py_items_NoDup : NoDup py_items.*1
}.

(** The content of the dict, which is what [in], [pop] and [markers[k]]
    work on. *)
Definition py_map (d : pydict) : gmap Z (list string) :=
  list_to_map (py_items d).

(** [for marker in markers], [markers] being what the kernels left of
    the dict [d]: [pop] takes keys out and leaves the others in their
    order, so these are the keys of [d] that are still there, in the order
    of [d], each with [markers[marker]]. *)
Definition leftover (d : pydict) (markers : gmap Z (list string))
  : list (Z * list string) :=
  omap (λ marker, pair marker <$> markers !! marker) (py_items d).*1.

Section Reconciler.

(** Python's [eval] on a marker text ([None]: it raises) and the query
    [nvvp.getEncapsulatingMarkers] of the database. *)
Variable eval : string → option pyobj.
Variable getEncapsulatingMarkers : pyval → pyval → pyval → list string.

Definition py_eval (txt : string) : outcome pyobj :=
  match eval txt with
  | Some x => Ok x
  | None => Raise EvalError
  end.

(** The loop of lines 170-174, [marker_fn] being the value so far. *)
Fixpoint scan_funcStack (marker_fn : pyval) (encapsulating_markers : list string)
  : outcome pyval :=
  match encapsulating_markers with
  | [] => Ok marker_fn
  | m_info :: rest =>
      if py_in_str "funcStack" m_info then
        marker_hash ← py_eval m_info;
        has ← py_contains "funcStack" marker_hash;
        if has : bool then
          v ← py_subscript marker_hash "funcStack";
          scan_funcStack v rest
        else scan_funcStack marker_fn rest
      else scan_funcStack marker_fn rest
  end.


(** Lines 162-185 for the marker text [marker_txt = markers[marker]]. *)
Definition reconcile (marker_txt : list string) : outcome CpuKernel :=
  txt0 ← py_index marker_txt 0;
  marker_item ← py_eval txt0;
  global_tid ← py_subscript marker_item "globalTid";
  start ← py_subscript marker_item "start";
  end_ ← py_subscript marker_item "end";
  marker_fn ← scan_funcStack (VList []) (getEncapsulatingMarkers global_tid start end_);
  Ok (mkCpu marker_fn marker_txt start end_ 0 global_tid global_tid 0 "cpu_kernel").

(** [for marker in markers], over the markers [ms] in the order of the
    dict: the records printed, with the id of their marker, and the
    exception that ended the loop, if any. *)
Fixpoint main_markers (ms : list (Z * list string)) : list (Z * CpuKernel) * option pyerr :=
  match ms with
  | [] => ([], None)
  | (marker, marker_txt) :: rest =>
      match reconcile marker_txt with
      | Ok k =>
          let '(out, e) := main_markers rest in ((marker, k) :: out, e)
      | Raise e => ([], Some e)
      end
  end.

(** How [main] ends. *)
Inductive ending :=
  | Exit0                                    (* "Found 0 kernels. Exiting." *)
  | Aborted (ks : list Kernel) (cs : list (Z * CpuKernel)) (e : pyerr)
  | Finished (r : Run) (cs : list (Z * CpuKernel)).

(** [main], from the kernels and the markers of the database on. *)
Definition main (kInfo : list Kernel) (all_markers : pydict) : ending :=
  if decide (kInfo = []) then Exit0
  else
    match main_kernels (mkRun init_fold (py_map all_markers) [] []) kInfo with
    | (r, Some e) => Aborted (printed r) [] e
    | (r, None) =>
        match main_markers (leftover all_markers (markers r)) with
        | (cs, Some e) => Aborted (printed r) cs e
        | (cs, None) => Finished r cs
        end
    end.

End Reconciler.

(** What holds of the ids popped at every point of the loop over the
    kernels, [m0] being the markers the run started with: no id is popped
    twice, the ids popped are the markers that a printed kernel lists in
    [callid], and [markers] is [m0] without them. *)
Definition run_inv (m0 : gmap Z (list string)) (r : Run) : Prop :=
  NoDup (popped r) ∧
  (∀ id, id ∈ popped r ↔
         is_Some (m0 !! id) ∧ ∃ k, k ∈ printed r ∧ id ∈ callid k) ∧
  (∀ id, markers r !! id = if decide (id ∈ popped r) then None else m0 !! id).

(** Two kernels to run the loop on: one whose direction the [assert]
    of line 113 refuses, one that it lets through. *)
Definition sample_untagged : Kernel :=
  mkKernel [3] [] 0 "none" ["linear"] ["na"] [].
Definition sample_relu : Kernel :=
  mkKernel [4] [] 0 "fprop" ["relu"] ["na"] [].

(** A small database to run the loops on: the marker texts that
    [eval] reads, two markers with a call stack around the interval of
    thread 1 from 10 to 20, the outer one first, and a dict of two markers
    on that interval. *)
Definition sample_eval (txt : string) : option pyobj :=
  if decide (txt = "{'globalTid': 1, 'start': 10, 'end': 20}") then
    Some (ODict {[ "globalTid" := VInt 1; "start" := VInt 10; "end" := VInt 20 ]})
  else if decide (txt = "{'funcStack': 'Net/forward'}") then
    Some (ODict {[ "funcStack" := VStr "Net/forward" ]})
  else if decide (txt = "{'funcStack': 'Net/forward/Linear'}") then
    Some (ODict {[ "funcStack" := VStr "Net/forward/Linear" ]})
  else if decide (txt = "'funcStack'") then
    Some (OVal (VStr "funcStack"))
  else if decide (txt = "20") then
    Some (OVal (VInt 20))
  else None.

Definition sample_encapsulating (global_tid start end_ : pyval) : list string :=
  if decide ((global_tid, start, end_) = (VInt 1, VInt 10, VInt 20)) then
    ["{'funcStack': 'Net/forward'}"; "{'funcStack': 'Net/forward/Linear'}"]
  else [].

Definition sample_markers : pydict :=
  PyDict [(2, ["{'globalTid': 1, 'start': 10, 'end': 20}"]);
          (1, ["{'globalTid': 1, 'start': 10, 'end': 20}"])]
         (bool_decide_unpack (NoDup [2; 1]) I).

(** What lines 173-174 can work on, [x] being what [eval] gave for a
    marker: a dict, with the key funcStack or without it, or a string or a
    list that does not hold the word; on a string or a list that holds it
    the subscript of line 174 raises, on an integer the [in] of line 173. *)
Definition funcStack_readable (x : pyobj) : Prop :=
  match x with
  | ODict _ => True
  | OVal (VStr s) => py_in_str "funcStack" s = false
  | OVal (VList l) => "funcStack" ∉ l
  | OVal (VInt _) => False
  end.

Global Instance funcStack_readable_dec (x : pyobj) :
  Decision (funcStack_readable x).
Proof. destruct x as [d|[z|s|l]]; simpl; apply _. Defined.


(** What the loop of line 135 does to a [seqId] without repeated ids,
    written by recursion on the list: an id equal to [currSeqId] stays;
    any other id moves to [altSeqId], and the id that follows it stays
    unseen, since the removal has shifted it under the iterator.  The
    pair is (what stays in [seqId], what moves). *)
Fixpoint skip_partition (currSeqId : Z) (seqId : list Z) : list Z * list Z :=
  match seqId with
  | [] => ([], [])
  | s :: rest =>
      if decide (s ≠ currSeqId) then
        match rest with
        | [] => ([], [s])
        | y :: rest' =>
            let '(kept, moved) := skip_partition currSeqId rest' in
            (y :: kept, s :: moved)
        end
      else
        let '(kept, moved) := skip_partition currSeqId rest in
        (s :: kept, moved)
  end.

(** * Properties *)

(** ** The outcome monad *)

Lemma bind_Ok {A B} (m : outcome A) (f : A → outcome B) (b : B) :
  m ≫= f = Ok b ↔ ∃ a, m = Ok a ∧ f a = Ok b.
Proof.
  destruct m as [a|e]; simpl; split.
  - intros H. by exists a.
  - by intros (a' & [= <-] & H).
  - done.
  - by intros (a' & [=] & _).
Qed.

(** ** List operations *)

Lemma py_index_head {A} (l : list A) : l ≠ [] → ∃ a, py_index l 0 = Ok a ∧ head l = Some a.
Proof. destruct l as [|a l]; [done|]. intros _. by exists a. Qed.

Lemma py_remove_inv (x : Z) (l l' : list Z) :
  py_remove x l = Ok l' → l ≡ₚ x :: l' ∧ l' `sublist_of` l.
Proof.
  revert l'. induction l as [|y l IH]; intros l'; simpl; [done|].
  case_decide as Hxy.
  - intros [= <-]. subst y. split; [done|]. by apply sublist_cons.
  - intros (l'' & Hrem & [= <-])%bind_Ok.
    destruct (IH _ Hrem) as [Hp Hs]. split.
    + rewrite Hp. apply Permutation_swap.
    + by apply sublist_skip.
Qed.

Lemma py_remove_elem (x : Z) (l : list Z) :
  x ∈ l → ∃ l', py_remove x l = Ok l'.
Proof.
  induction l as [|y l IH]; [by intros ?%elem_of_nil|].
  intros Hx. simpl. case_decide as Hxy; [by eexists|].
  apply elem_of_cons in Hx as [->|Hx]; [done|].
  destruct (IH Hx) as [l' ->]. by eexists.
Qed.

Lemma sublist_elem_of (l1 l2 : list Z) (x : Z) :
  l1 `sublist_of` l2 → x ∈ l1 → x ∈ l2.
Proof.
  induction 1 as [|y l1 l2 Hsub IH|y l1 l2 Hsub IH]; [done| |].
  - rewrite !elem_of_cons. intros [->|Hx]; [by left|right; by apply IH].
  - rewrite elem_of_cons. intros Hx. right; by apply IH.
Qed.

Lemma StronglySorted_sublist (R : relation Z) (l1 l2 : list Z) :
  l1 `sublist_of` l2 → StronglySorted R l2 → StronglySorted R l1.
Proof.
  induction 1 as [|y l1 l2 Hs IH|y l1 l2 Hs IH]; [done| |].
  - intros [Hl Hall]%StronglySorted_inv. constructor; [by apply IH|].
    apply Forall_forall. intros z Hz. rewrite Forall_forall in Hall.
    apply Hall. by eapply sublist_elem_of.
  - intros [Hl _]%StronglySorted_inv. by apply IH.
Qed.

(** [list(set(l))] then [sort()]: the elements of [l], once each, ascending *)
Lemma elem_of_list_set_sort (l : list Z) (x : Z) : x ∈ list_set_sort l ↔ x ∈ l.
Proof.
  unfold list_set_sort. rewrite merge_sort_Permutation, elem_of_elements.
  apply elem_of_list_to_set.
Qed.

Lemma list_set_sort_ascending (l : list Z) : StronglySorted Z.lt (list_set_sort l).
Proof.
  unfold list_set_sort.
  assert (Hnd : NoDup (merge_sort Z.le (elements (list_to_set l : gset Z)))).
  { rewrite merge_sort_Permutation. apply NoDup_elements. }
  assert (Hs : StronglySorted Z.le (merge_sort Z.le (elements (list_to_set l : gset Z)))).
  { apply StronglySorted_merge_sort; try apply _. }
  induction Hs as [|a l' Hs IH Hall]; [constructor|].
  apply NoDup_cons in Hnd as [Hni Hnd]. constructor; [by apply IH|].
  apply Forall_forall. intros z Hz. rewrite Forall_forall in Hall.
  specialize (Hall z Hz). assert (a ≠ z) by (intros ->; done). lia.
Qed.

(** ** Zero pruning *)

Lemma zero_prune_Ok (l : list Z) :
  ∃ l', zero_prune l = Ok l' ∧ l' `sublist_of` l ∧ (l' = [] ↔ l = []).
Proof.
  unfold zero_prune.
  destruct (existsb _ l) eqn:Hany; simpl; [|by exists l].
  case_bool_decide as H0; [|by exists l].
  destruct (py_remove_elem 0 l H0) as [l' Hrem]. exists l'.
  destruct (py_remove_inv _ _ _ Hrem) as [Hp Hs]. split_and!; [done..|].
  split; intros ->.
  - apply existsb_exists in Hany as (x & Hx & Hnz).
    apply list_elem_of_In in Hx. rewrite Hp in Hx.
    apply elem_of_cons in Hx as [->|Hx]; [done|by apply elem_of_nil in Hx].
  - by apply elem_of_nil in H0.
Qed.

Lemma zero_prune_one_zero (l l' : list Z) :
  length (filter (λ s, s = 0) l) = 1%nat → (∃ s, s ∈ l ∧ s ≠ 0) →
  zero_prune l = Ok l' → 0 ∉ l'.
Proof.
  intros Hone (s & Hs & Hnz). unfold zero_prune.
  assert (existsb (λ seq, negb (bool_decide (seq = 0))) l = true) as ->.
  { apply existsb_exists. exists s. split; [by apply list_elem_of_In|].
    by rewrite bool_decide_eq_false_2. }
  assert (0 ∈ l) as H0.
  { destruct (filter (λ s, s = 0) l) as [|z f] eqn:Hf; [done|].
    assert (z ∈ filter (λ s, s = 0) l) as Hz by (rewrite Hf; left).
    apply list_elem_of_filter in Hz as [-> Hz]. done. }
  rewrite bool_decide_eq_true_2 by done. simpl.
  intros [Hp _]%py_remove_inv Hin.
  rewrite Hp in Hone. rewrite filter_cons_True in Hone by done.
  simpl in Hone. injection Hone as Hone. apply length_zero_iff_nil in Hone.
  assert (0 ∈ filter (λ s, s = 0) l') as Hf by (by apply list_elem_of_filter).
  rewrite Hone in Hf. by apply elem_of_nil in Hf.
Qed.

(** ** The choice of [currSeqId] *)

Lemma select_currSeqId_fprop_Ok (seqId : list Z) (prevSeqId : Z) :
  seqId ≠ [] →
  ∃ z, last seqId = Some z ∧
    select_currSeqId "fprop" seqId prevSeqId =
      if bool_decide (prevSeqId < z)
      then py_index (filter (λ x, prevSeqId < x) seqId) 0
      else Ok prevSeqId.
Proof.
  intros [z Hz]%last_is_Some. exists z. split; [done|].
  unfold select_currSeqId, py_last. rewrite Hz. by rewrite decide_True.
Qed.

Lemma select_currSeqId_total (d : string) (seqId : list Z) (prevSeqId : Z) :
  seqId ≠ [] → ∃ c, select_currSeqId d seqId prevSeqId = Ok c.
Proof.
  intros Hne. unfold select_currSeqId. case_decide as Hd.
  - destruct (proj2 (last_is_Some seqId) Hne) as [z Hz].
    unfold py_last. rewrite Hz. simpl. case_bool_decide as Hinc; [|by eexists].
    assert (z ∈ filter (λ x, prevSeqId < x) seqId) as Hin.
    { apply list_elem_of_filter. split; [done|]. by apply last_Some_elem_of. }
    destruct (filter _ seqId) as [|c f]; [by apply elem_of_nil in Hin|].
    by exists c.
  - destruct (py_index_head seqId Hne) as (a & -> & _). by exists a.
Qed.

Lemma select_currSeqId_bprop (d : string) (seqId : list Z) (prevSeqId : Z) :
  d ≠ "fprop" → select_currSeqId d seqId prevSeqId = py_index seqId 0.
Proof. intros Hd. unfold select_currSeqId. by rewrite decide_False. Qed.

(** With the first [prevSeqId], -1, a forward kernel takes the head. *)
Lemma select_currSeqId_first (seqId : list Z) :
  seqId ≠ [] → Forall (λ s, 0 ≤ s) seqId →
  ∃ c, head seqId = Some c ∧
       select_currSeqId "fprop" seqId (prevSeqId init_fold) = Ok c.
Proof.
  intros Hne Hall.
  destruct (select_currSeqId_fprop_Ok seqId (-1) Hne) as (z & Hz & Heq).
  simpl. rewrite Heq. rewrite Forall_forall in Hall.
  rewrite bool_decide_eq_true_2
    by (apply last_Some_elem_of, Hall in Hz; lia).
  destruct seqId as [|c l]; [done|]. exists c. split; [done|].
  assert (0 ≤ c) by (apply Hall; left).
  rewrite filter_cons_True by lia. done.
Qed.

(** ** The two loops that move ids *)

Lemma move_to_alt_loop_Ok (fuel : nat) (c : Z) (i : nat) (seqId altSeqId : list Z) :
  (length seqId - i ≤ fuel)%nat →
  ∃ seqId' moved,
    move_to_alt_loop fuel c i seqId altSeqId = Ok (seqId', altSeqId ++ moved) ∧
    seqId ≡ₚ seqId' ++ moved ∧ seqId' `sublist_of` seqId ∧
    Forall (λ s, s ≠ c) moved.
Proof.
  revert i seqId altSeqId.
  induction fuel as [|fuel IH]; intros i seqId altSeqId Hfuel; simpl.
  - rewrite (lookup_ge_None_2 seqId i) by lia.
    exists seqId, []. by rewrite !app_nil_r.
  - destruct (seqId !! i) as [s|] eqn:Hs;
      [|exists seqId, []; by rewrite !app_nil_r].
    pose proof (lookup_lt_Some _ _ _ Hs) as Hlt.
    case_decide as Hsc.
    + destruct (py_remove_elem s seqId) as [seqId1 Hrem];
        [by eapply list_elem_of_lookup_2|].
      rewrite Hrem. simpl.
      destruct (py_remove_inv _ _ _ Hrem) as [Hp Hsub].
      assert (length seqId = S (length seqId1)) as Hlen by (by rewrite Hp).
      destruct (IH (S i) seqId1 (altSeqId ++ [s])) as (seqId' & moved & Heq & Hp' & Hsub' & Hne);
        [lia|].
      exists seqId', (s :: moved). split_and!.
      * rewrite Heq. by rewrite <-app_assoc.
      * rewrite Hp, Hp'. by rewrite Permutation_middle.
      * by etrans.
      * by constructor.
    + apply IH. lia.
Qed.

Lemma move_to_alt_total (c : Z) (seqId altSeqId : list Z) :
  ∃ seqId' moved,
    move_to_alt c seqId altSeqId = Ok (seqId', altSeqId ++ moved) ∧
    seqId ≡ₚ seqId' ++ moved ∧ seqId' `sublist_of` seqId ∧
    Forall (λ s, s ≠ c) moved.
Proof. apply move_to_alt_loop_Ok. lia. Qed.

Lemma drop_curr_loop_Ok (fuel : nat) (c : Z) (i : nat) (altSeqId : list Z) :
  (length altSeqId - i ≤ fuel)%nat →
  ∃ altSeqId',
    drop_curr_loop fuel c i altSeqId = Ok altSeqId' ∧
    altSeqId' `sublist_of` altSeqId ∧
    ∀ x, x ≠ c → x ∈ altSeqId → x ∈ altSeqId'.
Proof.
  revert i altSeqId.
  induction fuel as [|fuel IH]; intros i altSeqId Hfuel; simpl.
  - rewrite (lookup_ge_None_2 altSeqId i) by lia. by exists altSeqId.
  - destruct (altSeqId !! i) as [s|] eqn:Hs; [|by exists altSeqId].
    pose proof (lookup_lt_Some _ _ _ Hs) as Hlt.
    case_decide as Hsc.
    + destruct (py_remove_elem s altSeqId) as [alt1 Hrem];
        [by eapply list_elem_of_lookup_2|].
      rewrite Hrem. simpl.
      destruct (py_remove_inv _ _ _ Hrem) as [Hp Hsub].
      assert (length altSeqId = S (length alt1)) as Hlen by (by rewrite Hp).
      destruct (IH (S i) alt1) as (alt' & Heq & Hsub' & Hkeep); [lia|].
      exists alt'. split_and!; [done|by etrans|].
      intros x Hx Hin. apply Hkeep; [done|].
      rewrite Hp in Hin. apply elem_of_cons in Hin as [->|Hin]; [|done].
      by subst.
    + apply IH. lia.
Qed.

Lemma drop_curr_total (c : Z) (altSeqId : list Z) :
  ∃ altSeqId',
    drop_curr c altSeqId = Ok altSeqId' ∧
    altSeqId' `sublist_of` altSeqId ∧
    ∀ x, x ≠ c → x ∈ altSeqId → x ∈ altSeqId'.
Proof. apply drop_curr_loop_Ok. lia. Qed.

(** ** [subSeqId] *)

Lemma op_eq_true (o : list string) (p : pyop) : op_eq o p = true ↔ p = OpList o.
Proof.
  destruct p as [s|l]; simpl; [done|].
  rewrite bool_decide_eq_true. split; [by intros ->|by intros [= ->]].
Qed.

Lemma subseq_cond_spec (c : Z) (st : FoldState) (k : Kernel) (b : bool) :
  subseq_cond c st k = Ok b → (b = true ↔ subseq_rule c st k).
Proof.
  unfold subseq_cond, subseq_rule.
  destruct (bool_decide (c = prevSeqId st) && op_eq (op k) (prevOp st)) eqn:H1.
  - intros [= <-]. apply andb_true_iff in H1 as [Hc Ho].
    apply bool_decide_eq_true in Hc. apply op_eq_true in Ho. by split; [left|].
  - assert (¬ (c = prevSeqId st ∧ prevOp st = OpList (op k))) as Hn1.
    { intros [Hc Ho]. apply op_eq_true in Ho. rewrite Ho in H1.
      by rewrite bool_decide_eq_true_2 in H1. }
    destruct (op k) as [|op0 ops] eqn:Hop; [done|]. simpl.
    destruct (bool_decide (op0 = "forward") && op_eq (op0 :: ops) (prevOp st)) eqn:H2.
    + apply andb_true_iff in H2 as [Hf Ho].
      apply bool_decide_eq_true in Hf. apply op_eq_true in Ho.
      destruct (mod_ k) as [|mod0 mods] eqn:Hmod; [done|]. simpl.
      intros [= <-]. rewrite bool_decide_eq_true. split.
      * intros Hin. right. subst op0. split_and!; [done..|by exists mod0].
      * intros [?|(_ & _ & m & [= <-] & Hin)]; done.
    + intros [= <-]. split; [done|]. intros [?|(Hf & Ho & _)]; [done|].
      injection Hf as ->. apply op_eq_true in Ho. rewrite Ho in H2. done.
Qed.

Lemma subseq_cond_cases (c : Z) (st : FoldState) (k : Kernel) :
  (∃ b, subseq_cond c st k = Ok b) ∨ subseq_cond c st k = Raise IndexError.
Proof.
  unfold subseq_cond. destruct (_ && _); [left; by eexists|].
  destruct (op k) as [|op0 ops]; [by right|]. simpl.
  destruct (_ && _); [|left; by eexists].
  destruct (mod_ k) as [|mod0 mods]; [by right|]. left. by eexists.
Qed.

Lemma subseq_cond_total (c : Z) (st : FoldState) (k : Kernel) :
  op k ≠ [] → mod_ k ≠ [] → ∃ b, subseq_cond c st k = Ok b.
Proof.
  intros Hop Hmod. unfold subseq_cond. destruct (_ && _); [by eexists|].
  destruct (op k) as [|op0 ops]; [done|]. simpl.
  destruct (_ && _); [|by eexists].
  destruct (mod_ k) as [|mod0 mods]; [done|]. by eexists.
Qed.

(** ** One kernel *)

(** What the step does once the pruned [seqId], [currSeqId] and the test
    for [subSeqId] are known. *)
Lemma kernel_step_nonempty (st : FoldState) (k : Kernel)
    (seqId0 : list Z) (c : Z) (b : bool) :
  zero_prune (seqId k) = Ok seqId0 → seqId0 ≠ [] →
  dir k ∈ ["fprop"; "bprop"] →
  select_currSeqId (dir k) seqId0 (prevSeqId st) = Ok c →
  subseq_cond c st k = Ok b →
  ∃ seqId1 altSeqId1,
    let sub := if b then prevSubSeqId st + 1 else subSeqId k in
    kernel_step st k =
      Ok (mkFold c sub (OpList (op k)),
          mkKernel seqId1 altSeqId1 sub (dir k) (op k) (mod_ k) (callid k)) ∧
    seqId1 `sublist_of` seqId0 ∧
    (∀ x, x ∈ altSeqId1 → x ∈ seqId0 ∨ x ∈ altSeqId k) ∧
    (∀ x, x ∈ seqId0 → x ∈ seqId1 ∨ x ∈ altSeqId1) ∧
    StronglySorted Z.lt altSeqId1.
Proof.
  intros Hprune Hne Hdir Hsel Hcond.
  destruct (move_to_alt_total c seqId0 (altSeqId k))
    as (seqId1 & moved & Hmove & Hp & Hsub & Hmoved).
  destruct (drop_curr_total c (altSeqId k ++ moved))
    as (alt2 & Hdrop & Hsub2 & Hkeep).
  exists seqId1, (list_set_sort alt2). split_and!.
  - unfold kernel_step. rewrite Hprune. simpl.
    rewrite decide_False by done.
    rewrite bool_decide_eq_true_2 by done. simpl.
    rewrite Hsel. simpl. rewrite Hcond. simpl.
    rewrite Hmove. simpl. rewrite Hdrop. done.
  - done.
  - intros x Hx. rewrite elem_of_list_set_sort in Hx.
    apply (sublist_elem_of _ _ _ Hsub2) in Hx.
    apply elem_of_app in Hx as [Hx|Hx]; [by right|].
    left. rewrite Hp. apply elem_of_app. by right.
  - intros x Hx. rewrite Hp in Hx. apply elem_of_app in Hx as [Hx|Hx]; [by left|].
    right. apply elem_of_list_set_sort. apply Hkeep.
    + rewrite Forall_forall in Hmoved. by apply Hmoved.
    + apply elem_of_app. by right.
  - apply list_set_sort_ascending.
Qed.

(** A kernel without sequence id goes through untouched. *)
Lemma kernel_step_empty (st : FoldState) (k : Kernel) :
  seqId k = [] → kernel_step st k = Ok (st, k).
Proof.
  intros Hk. unfold kernel_step, zero_prune. rewrite Hk. simpl.
  destruct k; simpl in *. by subst.
Qed.

Lemma kernel_step_assert (st : FoldState) (k : Kernel) :
  seqId k ≠ [] → dir k ∉ ["fprop"; "bprop"] →
  kernel_step st k = Raise AssertionError.
Proof.
  intros Hne Hdir.
  destruct (zero_prune_Ok (seqId k)) as (seqId0 & Hprune & _ & Hiff).
  unfold kernel_step. rewrite Hprune. simpl.
  rewrite decide_False by (by rewrite Hiff).
  by rewrite bool_decide_eq_false_2.
Qed.

(** With a direction the loop knows, only [k.op[0]] or [k.mod[0]] can
    make the step fail. *)
Lemma kernel_step_cases (st : FoldState) (k : Kernel) :
  seqId k ≠ [] → dir k ∈ ["fprop"; "bprop"] →
  (∃ st' k', kernel_step st k = Ok (st', k')) ∨
  kernel_step st k = Raise IndexError.
Proof.
  intros Hne Hdir.
  destruct (zero_prune_Ok (seqId k)) as (seqId0 & Hprune & _ & Hiff).
  assert (seqId0 ≠ []) as Hne0 by (by rewrite Hiff).
  destruct (select_currSeqId_total (dir k) seqId0 (prevSeqId st) Hne0) as [c Hsel].
  destruct (subseq_cond_cases c st k) as [[b Hcond]|Hcond].
  - left.
    destruct (kernel_step_nonempty st k seqId0 c b) as (s1 & a1 & Heq & _); [done..|].
    eauto.
  - right. unfold kernel_step. rewrite Hprune. simpl.
    rewrite decide_False by done.
    rewrite bool_decide_eq_true_2 by done. simpl.
    rewrite Hsel. simpl. by rewrite Hcond.
Qed.

(** The whole step for a kernel with sequence ids. *)
Lemma kernel_step_spec (st : FoldState) (k : Kernel) :
  seq_kernel k →
  ∃ seqId0 c b seqId1 altSeqId1,
    let sub := if b : bool then prevSubSeqId st + 1 else subSeqId k in
    zero_prune (seqId k) = Ok seqId0 ∧ seqId0 ≠ [] ∧
    seqId0 `sublist_of` seqId k ∧
    select_currSeqId (dir k) seqId0 (prevSeqId st) = Ok c ∧
    subseq_cond c st k = Ok b ∧
    kernel_step st k =
      Ok (mkFold c sub (OpList (op k)),
          mkKernel seqId1 altSeqId1 sub (dir k) (op k) (mod_ k) (callid k)) ∧
    seqId1 `sublist_of` seqId0 ∧
    (∀ x, x ∈ altSeqId1 → x ∈ seqId0 ∨ x ∈ altSeqId k) ∧
    (∀ x, x ∈ seqId0 → x ∈ seqId1 ∨ x ∈ altSeqId1) ∧
    StronglySorted Z.lt altSeqId1.
Proof.
  intros (Hne & Hdir & Hop & Hmod).
  destruct (zero_prune_Ok (seqId k)) as (seqId0 & Hprune & Hsub & Hiff).
  assert (seqId0 ≠ []) as Hne0 by (by rewrite Hiff).
  destruct (select_currSeqId_total (dir k) seqId0 (prevSeqId st) Hne0) as [c Hsel].
  destruct (subseq_cond_total c st k Hop Hmod) as [b Hcond].
  destruct (kernel_step_nonempty st k seqId0 c b)
    as (seqId1 & alt1 & Heq & H1 & H2 & H3 & H4); [done..|].
  exists seqId0, c, b, seqId1, alt1. simpl. by split_and!.
Qed.

Lemma kernel_step_subSeqId (st : FoldState) (k : Kernel) :
  seq_kernel k → subSeqId k = default_subSeqId →
  ∃ st' k',
    kernel_step st k = Ok (st', k') ∧ subSeqId_by_rule st k st' k' ∧
    prevOp st' = OpList (op k) ∧ prevSubSeqId st' = subSeqId k'.
Proof.
  intros Hwf Hdef.
  destruct (kernel_step_spec st k Hwf)
    as (seqId0 & c & b & seqId1 & alt1 & _ & _ & _ & _ & Hcond & Hstep & _).
  eexists _, _. split; [exact Hstep|]. simpl. split_and!; [|done..].
  unfold subSeqId_by_rule. simpl.
  pose proof (subseq_cond_spec c st k b Hcond) as Hrule.
  destruct b.
  - left. split; [by apply Hrule|done].
  - right. split; [|done]. intros Hr. by apply Hrule in Hr.
Qed.

(** ** The loop over the kernels *)

Lemma kernel_iter_Ok (r : Run) (k : Kernel) (st' : FoldState) (k' : Kernel) :
  kernel_step (fstate r) k = Ok (st', k') →
  kernel_iter r k =
    Ok (mkRun st' (pop_callids (callid k') (markers r)).1
              (printed r ++ [k'])
              (popped r ++ (pop_callids (callid k') (markers r)).2)).
Proof.
  intros Hstep. unfold kernel_iter. rewrite Hstep. simpl.
  by destruct (pop_callids _ _).
Qed.

Lemma kernel_iter_Raise (r : Run) (k : Kernel) (e : pyerr) :
  kernel_step (fstate r) k = Raise e → kernel_iter r k = Raise e.
Proof. intros Hstep. unfold kernel_iter. by rewrite Hstep. Qed.

Lemma main_kernels_app (r0 : Run) (l1 l2 : list Kernel) :
  main_kernels r0 (l1 ++ l2) =
    match main_kernels r0 l1 with
    | (r, None) => main_kernels r l2
    | (r, Some e) => (r, Some e)
    end.
Proof.
  revert r0. induction l1 as [|k l1 IH]; intros r0; simpl; [done|].
  destruct (kernel_iter r0 k) as [r'|e]; [apply IH|done].
Qed.

Lemma main_kernels_printed_length (r0 r : Run) (l : list Kernel) :
  main_kernels r0 l = (r, None) →
  length (printed r) = (length (printed r0) + length l)%nat.
Proof.
  revert r0. induction l as [|k l IH]; intros r0; simpl.
  - intros [= <-]. lia.
  - destruct (kernel_iter r0 k) as [r'|e] eqn:Hit; [|done].
    intros Hrun. rewrite (IH _ Hrun).
    unfold kernel_iter in Hit.
    destruct (kernel_step (fstate r0) k) as [[st' k']|e]; [|done].
    simpl in Hit. destruct (pop_callids _ _). injection Hit as <-. simpl.
    rewrite length_app. simpl. lia.
Qed.

(** * The claims of the specification *)

(** ** Forward kernels *)

(** C1, as the code has it: for a forward kernel whose [seqId] is not
    empty and in ascending order, [currSeqId] is the least id of [seqId]
    above [prevSeqId] when there is one, and [prevSeqId] otherwise. *)
Theorem C1_fprop_min_when_ascending (seqId : list Z) (prevSeqId : Z) :
  seqId ≠ [] → Sorted Z.le seqId →
  ∃ c, select_currSeqId "fprop" seqId prevSeqId = Ok c ∧
       fprop_min_rule seqId prevSeqId c.
Proof.
  intros Hne Hsorted. apply Sorted_StronglySorted in Hsorted; [|apply _].
  destruct (select_currSeqId_fprop_Ok seqId prevSeqId Hne) as (z & Hz & ->).
  assert (∀ s, s ∈ seqId → s ≤ z) as Hmax.
  { apply last_Some in Hz as [l' ->]. intros s [Hs|Hs]%elem_of_app.
    - eapply (StronglySorted_app_1_elem_of Z.le); [done..|left].
    - apply list_elem_of_singleton in Hs. lia. }
  case_bool_decide as Hinc.
  - assert (StronglySorted Z.le (filter (λ x, prevSeqId < x) seqId)) as Hfs.
    { eapply StronglySorted_sublist; [apply sublist_filter|done]. }
    assert (z ∈ filter (λ x, prevSeqId < x) seqId) as Hin.
    { apply list_elem_of_filter. split; [done|]. by apply last_Some_elem_of. }
    destruct (filter (λ x, prevSeqId < x) seqId) as [|c f] eqn:Hf;
      [by apply elem_of_nil in Hin|].
    exists c. split; [done|]. split.
    + intros _. assert (c ∈ filter (λ x, prevSeqId < x) seqId) as Hc
        by (rewrite Hf; left).
      apply list_elem_of_filter in Hc as [Hc1 Hc2]. split_and!; [done..|].
      intros s Hs Hlt.
      assert (s ∈ c :: f) as Hsf by (rewrite <-Hf; by apply list_elem_of_filter).
      apply StronglySorted_inv in Hfs as [_ Hall]. rewrite Forall_forall in Hall.
      apply elem_of_cons in Hsf as [->|Hsf]; [lia|by apply Hall].
    + intros Hall. specialize (Hall z (last_Some_elem_of _ _ Hz)). lia.
  - exists prevSeqId. split; [done|]. split; [|done].
    intros (s & Hs & Hlt). specialize (Hmax s Hs). lia.
Qed.

Lemma C1_fprop_min_when_ascending_witness :
  ∃ c, select_currSeqId "fprop" [5; 7] 3 = Ok c ∧ fprop_min_rule [5; 7] 3 c.
Proof.
  apply (C1_fprop_min_when_ascending [5; 7] 3); [done|].
  repeat constructor; lia.
Defined.

(** C1 as stated fails: with [seqId = [7, 5]] and [prevSeqId = 3] the code
    takes 7, the first id above 3, and not 5, the least one. *)
Lemma C1_order_matters :
  ∃ c, select_currSeqId "fprop" [7; 5] 3 = Ok c ∧ ¬ fprop_min_rule [7; 5] 3 c.
Proof.
  exists 7. split; [reflexivity|]. intros [Hmin _].
  destruct Hmin as (_ & _ & Hmin).
  - exists 5. split; [|lia]. right; left.
  - assert (7 ≤ 5) as Hle; [|lia].
    apply Hmin; [|lia]. right; left.
Qed.

(** ** Backward kernels *)

(** C5: for a backward kernel whose [seqId] is not empty, [currSeqId] is
    the first element of [seqId], whatever the order of the ids and
    whatever [prevSeqId] is. *)
Theorem C5_bprop_takes_head (seqId : list Z) (prevSeqId : Z) :
  seqId ≠ [] →
  ∃ c, select_currSeqId "bprop" seqId prevSeqId = Ok c ∧ head seqId = Some c.
Proof.
  intros Hne. rewrite select_currSeqId_bprop by done.
  by apply py_index_head.
Qed.

Lemma C5_bprop_takes_head_witness :
  ∃ c, select_currSeqId "bprop" [9; 4] 3 = Ok c ∧ head [9; 4] = Some c.
Proof. apply (C5_bprop_takes_head [9; 4] 3). done. Defined.

(** ** The move of the other ids *)

(** C2 fails on the first kernel of a run with [seqId = [5, 7, 9]]: the
    loop of line 135 removes 7 while it walks the list, so 9 is never
    looked at and stays in [seqId]; [altSeqId] gets 7 only. *)
Theorem C2_partition_skips_an_id :
  kernel_step init_fold (mkKernel [5; 7; 9] [] 0 "fprop" ["linear"] ["na"] [])
  = Ok (mkFold 5 0 (OpList ["linear"]),
        mkKernel [5; 9] [7] 0 "fprop" ["linear"] ["na"] []).
Proof. vm_compute. reflexivity. Qed.

(** ** Zero pruning *)

(** C3, as the code has it: when [seqId] holds one 0 and an id that is
    not 0, line 96 takes the 0 out, the kernel printed has no 0 in
    [seqId], and a 0 in its [altSeqId] can only be one that the marker
    info had put in [altSeqId] before. *)
Theorem C3_single_zero_pruned (st : FoldState) (k : Kernel) :
  length (filter (λ s, s = 0) (seqId k)) = 1%nat →
  (∃ s, s ∈ seqId k ∧ s ≠ 0) →
  dir k ∈ ["fprop"; "bprop"] → op k ≠ [] → mod_ k ≠ [] →
  ∃ seqId0 st' k',
    zero_prune (seqId k) = Ok seqId0 ∧ (0 ∉ seqId0) ∧
    kernel_step st k = Ok (st', k') ∧
    (0 ∉ seqId k') ∧ (0 ∈ altSeqId k' → 0 ∈ altSeqId k).
Proof.
  intros Hone Hnz Hdir Hop Hmod.
  assert (seq_kernel k) as Hwf.
  { split_and!; [|done..]. destruct Hnz as (s & Hs & _).
    intros Hnil. rewrite Hnil in Hs. by apply elem_of_nil in Hs. }
  destruct (kernel_step_spec st k Hwf)
    as (seqId0 & c & b & seqId1 & alt1 & Hprune & _ & _ & _ & _ & Hstep & Hsub & Halt & _).
  pose proof (zero_prune_one_zero _ _ Hone Hnz Hprune) as H0.
  eexists seqId0, _, _. split_and!; [done..|exact Hstep| |]; simpl.
  - intros Hin. apply H0. by eapply sublist_elem_of.
  - intros Hin. by destruct (Halt 0 Hin).
Qed.

Lemma C3_single_zero_pruned_witness :
  ∃ seqId0 st' k',
    zero_prune [0; 5] = Ok seqId0 ∧ (0 ∉ seqId0) ∧
    kernel_step init_fold (mkKernel [0; 5] [] 0 "fprop" ["linear"] ["na"] [])
      = Ok (st', k') ∧
    (0 ∉ seqId k') ∧ (0 ∈ altSeqId k' → 0 ∈ @nil Z).
Proof.
  apply (C3_single_zero_pruned init_fold
           (mkKernel [0; 5] [] 0 "fprop" ["linear"] ["na"] [])); simpl.
  - reflexivity.
  - exists 5. split; [right; left|lia].
  - left.
  - done.
  - done.
Defined.

(** C3 as stated fails when [seqId] holds 0 twice: [remove(0)] takes one
    0 out, the other one ends in [altSeqId] next to the id 5 chosen. *)
Lemma C3_second_zero_stays :
  ∃ st' k',
    kernel_step (mkFold 0 0 (OpList ["linear"]))
                (mkKernel [0; 0; 5] [] 0 "fprop" ["conv2d"] ["na"] [])
      = Ok (st', k') ∧
    prevSeqId st' = 5 ∧ seqId k' = [5] ∧ 0 ∈ altSeqId k'.
Proof.
  eexists _, _. split; [vm_compute; reflexivity|]. simpl.
  split_and!; [done..|left].
Qed.

(** ** [subSeqId] *)

(** C4: for kernels with sequence ids, [subSeqId] is the last [subSeqId]
    plus one when the id chosen and the operation are the last ones, or
    when the operation starts with "forward", is the last one, and the
    module starts with the name of a recurrent cell; it is 0 otherwise.
    So of three such kernels in a row, the second gets the [subSeqId] of
    the first plus one when id and operation are the same, and the third
    gets 0 when its operation is another one. *)
Theorem C4_subSeqId_rule (st : FoldState) (k1 k2 k3 : Kernel) :
  Forall (λ k, seq_kernel k ∧ subSeqId k = default_subSeqId) [k1; k2; k3] →
  ∃ st1 k1' st2 k2' st3 k3',
    kernel_step st k1 = Ok (st1, k1') ∧
    kernel_step st1 k2 = Ok (st2, k2') ∧
    kernel_step st2 k3 = Ok (st3, k3') ∧
    subSeqId_by_rule st k1 st1 k1' ∧
    subSeqId_by_rule st1 k2 st2 k2' ∧
    subSeqId_by_rule st2 k3 st3 k3' ∧
    (prevSeqId st2 = prevSeqId st1 → op k2 = op k1 →
     subSeqId k2' = subSeqId k1' + 1) ∧
    (op k3 ≠ op k2 → subSeqId k3' = 0).
Proof.
  intros Hall.
  apply Forall_cons in Hall as [[Hwf1 Hd1] Hall].
  apply Forall_cons in Hall as [[Hwf2 Hd2] Hall].
  apply Forall_cons in Hall as [[Hwf3 Hd3] _].
  destruct (kernel_step_subSeqId st k1 Hwf1 Hd1)
    as (st1 & k1' & Hs1 & Hr1 & Hop1 & Hsub1).
  destruct (kernel_step_subSeqId st1 k2 Hwf2 Hd2)
    as (st2 & k2' & Hs2 & Hr2 & Hop2 & Hsub2).
  destruct (kernel_step_subSeqId st2 k3 Hwf3 Hd3)
    as (st3 & k3' & Hs3 & Hr3 & Hop3 & Hsub3).
  exists st1, k1', st2, k2', st3, k3'. split_and!; [done..| |].
  - intros Hid Hop. destruct Hr2 as [[_ ->]|[Hn _]]; [by rewrite Hsub1|].
    destruct Hn. left. split; [done|]. by rewrite Hop1, Hop.
  - intros Hop. destruct Hr3 as [[Hr _]|[_ ->]]; [|done].
    destruct Hr as [[_ Heq]|(_ & Heq & _)];
      rewrite Hop2 in Heq; by injection Heq as Heq.
Qed.

Lemma C4_subSeqId_rule_witness :
  ∃ st1 k1' st2 k2' st3 k3',
    kernel_step init_fold (mkKernel [4] [] 0 "fprop" ["linear"] ["na"] [])
      = Ok (st1, k1') ∧
    kernel_step st1 (mkKernel [4] [] 0 "fprop" ["linear"] ["na"] [])
      = Ok (st2, k2') ∧
    kernel_step st2 (mkKernel [4] [] 0 "fprop" ["relu"] ["na"] [])
      = Ok (st3, k3') ∧
    subSeqId_by_rule init_fold (mkKernel [4] [] 0 "fprop" ["linear"] ["na"] [])
      st1 k1' ∧
    subSeqId_by_rule st1 (mkKernel [4] [] 0 "fprop" ["linear"] ["na"] [])
      st2 k2' ∧
    subSeqId_by_rule st2 (mkKernel [4] [] 0 "fprop" ["relu"] ["na"] [])
      st3 k3' ∧
    (prevSeqId st2 = prevSeqId st1 → ["linear"] = ["linear"] →
     subSeqId k2' = subSeqId k1' + 1) ∧
    (["relu"] ≠ ["linear"] → subSeqId k3' = 0).
Proof.
  apply (C4_subSeqId_rule init_fold
           (mkKernel [4] [] 0 "fprop" ["linear"] ["na"] [])
           (mkKernel [4] [] 0 "fprop" ["linear"] ["na"] [])
           (mkKernel [4] [] 0 "fprop" ["relu"] ["na"] [])).
  repeat constructor; simpl; try done; left.
Defined.


(** ** The three [prev] variables *)

(** C7, as the code has it: after the step for a kernel with sequence
    ids, [prevOp] is its [op], [prevSubSeqId] its [subSeqId] and
    [prevSeqId] the id chosen for it; a kernel without sequence ids leaves
    the three variables as they are (lines 130-132 are inside the [if] of
    line 112). *)
Theorem C7_fold_state_update (st : FoldState) (k : Kernel) :
  (seqId k ≠ [] → seq_kernel k) →
  ∃ st' k',
    kernel_step st k = Ok (st', k') ∧
    (seqId k = [] → st' = st) ∧
    (seqId k ≠ [] →
     prevOp st' = OpList (op k') ∧ op k' = op k ∧
     prevSubSeqId st' = subSeqId k' ∧
     ∃ seqId0, zero_prune (seqId k) = Ok seqId0 ∧
               select_currSeqId (dir k') seqId0 (prevSeqId st) = Ok (prevSeqId st')).
Proof.
  intros Hwf. destruct (decide (seqId k = [])) as [Hnil|Hne].
  - exists st, k. split_and!; [by apply kernel_step_empty|done..].
  - destruct (kernel_step_spec st k (Hwf Hne))
      as (seqId0 & c & b & seqId1 & alt1 & Hprune & _ & _ & Hsel & _ & Hstep & _).
    eexists _, _. split; [exact Hstep|]. simpl. split; [done|].
    intros _. split_and!; [done..|]. by exists seqId0.
Qed.

Lemma C7_fold_state_update_witness :
  ∃ st' k',
    kernel_step (mkFold 3 0 (OpList ["linear"]))
                (mkKernel [5; 7] [] 0 "fprop" ["relu"] ["na"] []) = Ok (st', k') ∧
    ([5; 7] = [] → st' = mkFold 3 0 (OpList ["linear"])) ∧
    ([5; 7] ≠ [] →
     prevOp st' = OpList (op k') ∧ op k' = ["relu"] ∧
     prevSubSeqId st' = subSeqId k' ∧
     ∃ seqId0, zero_prune [5; 7] = Ok seqId0 ∧
               select_currSeqId (dir k') seqId0 3 = Ok (prevSeqId st')).
Proof.
  apply (C7_fold_state_update (mkFold 3 0 (OpList ["linear"]))
           (mkKernel [5; 7] [] 0 "fprop" ["relu"] ["na"] [])).
  intros _. unfold seq_kernel. simpl. split_and!; [done| left |done..].
Defined.

(** C7 as stated fails for a kernel without sequence ids: its [op] does
    not become [prevOp]. *)
Lemma C7_empty_seqId_keeps_state :
  ∃ st' k',
    kernel_step init_fold (mkKernel [] [] 0 "none" ["view"] ["Tensor"] [7])
      = Ok (st', k') ∧
    prevOp st' ≠ OpList (op k').
Proof. eexists _, _. split; [vm_compute; reflexivity|]. done. Qed.

(** ** The assertion on the direction *)

(** C8: at a kernel with sequence ids whose direction is neither "fprop"
    nor "bprop" the run ends with an assertion error, and what has been
    printed is what the kernels before it gave; with one of the two
    directions the assertion does not fire, and the kernel is printed
    and the run goes on when [op] and [mod] have a first token. *)
Theorem C8_direction_assert (r0 r : Run) (pre post : list Kernel) (k : Kernel) :
  main_kernels r0 pre = (r, None) → seqId k ≠ [] →
  (dir k ∉ ["fprop"; "bprop"] →
   kernel_iter r k = Raise AssertionError ∧
   main_kernels r0 (pre ++ k :: post) = (r, Some AssertionError) ∧
   length (printed r) = (length (printed r0) + length pre)%nat) ∧
  (dir k ∈ ["fprop"; "bprop"] →
   kernel_iter r k ≠ Raise AssertionError ∧
   (op k ≠ [] → mod_ k ≠ [] →
    ∃ r' k', kernel_iter r k = Ok r' ∧ printed r' = printed r ++ [k'] ∧
             main_kernels r0 (pre ++ k :: post) = main_kernels r' post)).
Proof.
  intros Hpre Hne. split; intros Hdir.
  - pose proof (kernel_iter_Raise r k _ (kernel_step_assert (fstate r) k Hne Hdir))
      as Hit.
    split_and!; [done| |by eapply main_kernels_printed_length].
    rewrite main_kernels_app, Hpre. simpl. by rewrite Hit.
  - split.
    + destruct (kernel_step_cases (fstate r) k Hne Hdir) as [(st' & k' & Hs)|Hs].
      * by rewrite (kernel_iter_Ok _ _ _ _ Hs).
      * by rewrite (kernel_iter_Raise _ _ _ Hs).
    + intros Hop Hmod.
      destruct (kernel_step_spec (fstate r) k)
        as (seqId0 & c & b & seqId1 & alt1 & _ & _ & _ & _ & _ & Hstep & _);
        [done|].
      pose proof (kernel_iter_Ok _ _ _ _ Hstep) as Hit.
      eexists _, _. split; [exact Hit|]. split; [done|].
      rewrite main_kernels_app, Hpre. simpl. by rewrite Hit.
Qed.

Lemma C8_direction_assert_witness :
  (dir sample_untagged ∉ ["fprop"; "bprop"] →
   kernel_iter (mkRun init_fold ∅ [] []) sample_untagged = Raise AssertionError ∧
   main_kernels (mkRun init_fold ∅ [] []) [sample_untagged; sample_relu]
     = (mkRun init_fold ∅ [] [], Some AssertionError) ∧
   length (@nil Kernel) = 0%nat) ∧
  (dir sample_untagged ∈ ["fprop"; "bprop"] →
   kernel_iter (mkRun init_fold ∅ [] []) sample_untagged ≠ Raise AssertionError ∧
   (op sample_untagged ≠ [] → mod_ sample_untagged ≠ [] →
    ∃ r' k',
      kernel_iter (mkRun init_fold ∅ [] []) sample_untagged = Ok r' ∧
      printed r' = [k'] ∧
      main_kernels (mkRun init_fold ∅ [] []) [sample_untagged; sample_relu]
        = main_kernels r' [sample_relu])).
Proof.
  apply (C8_direction_assert (mkRun init_fold ∅ [] []) (mkRun init_fold ∅ [] [])
           [] [sample_relu] sample_untagged).
  - reflexivity.
  - done.
Defined.

(** ** The first forward kernel *)

Lemma main_kernels_empty_seqIds (r0 : Run) (pre : list Kernel) :
  Forall (λ k0, seqId k0 = []) pre →
  ∃ r, main_kernels r0 pre = (r, None) ∧ fstate r = fstate r0.
Proof.
  revert r0. induction pre as [|k pre IH]; intros r0 Hall; simpl.
  - by exists r0.
  - apply Forall_cons in Hall as [Hk Hall].
    rewrite (kernel_iter_Ok r0 k _ _ (kernel_step_empty (fstate r0) k Hk)).
    destruct (IH (mkRun (fstate r0) (pop_callids (callid k) (markers r0)).1
                        (printed r0 ++ [k])
                        (popped r0 ++ (pop_callids (callid k) (markers r0)).2)) Hall)
      as (r & Hrun & Hst).
    by exists r.
Qed.

(** C10, as the code has it: when no kernel before had sequence ids, a
    forward kernel whose [seqId] is not empty and holds no negative id is
    processed with [prevSeqId = -1]: the test [inc] of line 116 is true,
    and [currSeqId] is the first element of [seqId] as zero pruning left
    it, an id of the kernel itself. *)
Theorem C10_first_forward_kernel (m0 : gmap Z (list string))
    (pre : list Kernel) (k : Kernel) :
  Forall (λ k0, seqId k0 = []) pre →
  seqId k ≠ [] → Forall (λ s, 0 ≤ s) (seqId k) → dir k = "fprop" →
  ∃ r seqId0 c z,
    main_kernels (mkRun init_fold m0 [] []) pre = (r, None) ∧
    fstate r = init_fold ∧
    zero_prune (seqId k) = Ok seqId0 ∧
    last seqId0 = Some z ∧ prevSeqId (fstate r) < z ∧
    select_currSeqId (dir k) seqId0 (prevSeqId (fstate r)) = Ok c ∧
    head seqId0 = Some c ∧ c ∈ seqId k.
Proof.
  intros Hpre Hne Hpos Hdir.
  destruct (main_kernels_empty_seqIds (mkRun init_fold m0 [] []) pre Hpre)
    as (r & Hrun & Hst). simpl in Hst.
  destruct (zero_prune_Ok (seqId k)) as (seqId0 & Hprune & Hsub & Hiff).
  assert (seqId0 ≠ []) as Hne0 by (by rewrite Hiff).
  assert (Forall (λ s, 0 ≤ s) seqId0) as Hpos0.
  { rewrite Forall_forall in Hpos. apply Forall_forall. intros s Hs.
    apply Hpos. by eapply sublist_elem_of. }
  destruct (select_currSeqId_first seqId0 Hne0 Hpos0) as (c & Hhead & Hsel).
  destruct (proj2 (last_is_Some seqId0) Hne0) as [z Hz].
  exists r, seqId0, c, z. rewrite Hst, Hdir.
  split_and!; [done|done|done|done| |done|done|].
  - rewrite Forall_forall in Hpos0. apply last_Some_elem_of, Hpos0 in Hz.
    simpl. lia.
  - eapply sublist_elem_of; [done|]. by apply head_Some_elem_of.
Qed.

Lemma C10_first_forward_kernel_witness :
  ∃ r seqId0 c z,
    main_kernels (mkRun init_fold ∅ [] [])
      [mkKernel [] [] 0 "none" ["view"] ["Tensor"] []] = (r, None) ∧
    fstate r = init_fold ∧
    zero_prune [0; 5; 7] = Ok seqId0 ∧
    last seqId0 = Some z ∧ prevSeqId (fstate r) < z ∧
    select_currSeqId "fprop" seqId0 (prevSeqId (fstate r)) = Ok c ∧
    head seqId0 = Some c ∧ c ∈ [0; 5; 7].
Proof.
  apply (C10_first_forward_kernel ∅
           [mkKernel [] [] 0 "none" ["view"] ["Tensor"] []]
           (mkKernel [0; 5; 7] [] 0 "fprop" ["linear"] ["na"] [])); simpl.
  - by repeat constructor.
  - done.
  - repeat constructor; lia.
  - reflexivity.
Defined.

(** C10 as stated fails for a forward kernel that comes after a backward
    kernel: the first kernel of this run that has sequence ids and is
    "fprop" is the second one, it is processed with [prevSeqId = 9], [inc]
    is false and the id chosen is 9, which is not in its [seqId]. *)
Lemma C10_forward_after_backward :
  ∃ r1 r2,
    main_kernels (mkRun init_fold ∅ [] [])
      [mkKernel [9] [] 0 "bprop" ["linear"] ["na"] []] = (r1, None) ∧
    main_kernels (mkRun init_fold ∅ [] [])
      [mkKernel [9] [] 0 "bprop" ["linear"] ["na"] [];
       mkKernel [2] [] 0 "fprop" ["relu"] ["na"] []] = (r2, None) ∧
    zero_prune [2] = Ok [2] ∧
    select_currSeqId "fprop" [2] (prevSeqId (fstate r1)) = Ok 9 ∧
    prevSeqId (fstate r2) = 9 ∧ 9 ∉ [2].
Proof.
  eexists _, _. split; [vm_compute; reflexivity|].
  split; [vm_compute; reflexivity|]. simpl.
  split_and!; [reflexivity..|].
  intros Hin. apply list_elem_of_singleton in Hin. lia.
Qed.

(** ** The call stack of a marker without kernel *)

Section ReconcilerFacts.

Variable eval : string → option pyobj.
Variable getEncapsulatingMarkers : pyval → pyval → pyval → list string.




End ReconcilerFacts.


(** ** The markers used by the kernels *)

Lemma pop_callids_spec (callids : list Z) (m : gmap Z (list string)) :
  (∀ id, (pop_callids callids m).1 !! id
         = if decide (id ∈ callids) then None else m !! id) ∧
  NoDup (pop_callids callids m).2 ∧
  (∀ id, id ∈ (pop_callids callids m).2 ↔ id ∈ callids ∧ is_Some (m !! id)).
Proof.
  revert m. induction callids as [|c rest IH]; intros m; simpl.
  - split_and!; [done|constructor|].
    intros id. split; [by intros ?%elem_of_nil|by intros [?%elem_of_nil _]].
  - case_decide as Hc.
    + destruct (IH (delete c m)) as (Hlook & Hnd & Hmem).
      destruct (pop_callids rest (delete c m)) as [m' pops]. simpl in *.
      split_and!.
      * intros id. rewrite Hlook. destruct (decide (id = c)) as [->|Hne].
        -- rewrite lookup_delete_eq. rewrite (decide_True (P := c ∈ c :: rest)) by left.
           by case_decide.
        -- rewrite lookup_delete_ne by done.
           destruct (decide (id ∈ rest)) as [Hin|Hnin].
           ++ rewrite decide_True; [done|by right].
           ++ rewrite decide_False; [done|].
              intros [?|?]%elem_of_cons; done.
      * constructor; [|done]. rewrite Hmem. intros [_ Hs].
        rewrite lookup_delete_eq in Hs. by destruct Hs.
      * intros id. rewrite !elem_of_cons, Hmem. split.
        -- intros [->|[Hin Hs]]; [split; [by left|done]|].
           split; [by right|]. destruct (decide (id = c)) as [->|Hne].
           ++ rewrite lookup_delete_eq in Hs. by destruct Hs.
           ++ by rewrite lookup_delete_ne in Hs.
        -- intros [[->|Hin] Hs]; [by left|].
           destruct (decide (id = c)) as [->|Hne]; [by left|].
           right. split; [done|]. by rewrite lookup_delete_ne.
    + destruct (IH m) as (Hlook & Hnd & Hmem).
      assert (m !! c = None) as Hnone.
      { destruct (m !! c) eqn:E; [|done]. destruct Hc. by eexists. }
      split_and!; [|done|].
      * intros id. rewrite Hlook. destruct (decide (id = c)) as [->|Hne].
        -- rewrite (decide_True (P := c ∈ c :: rest)) by left.
           by case_decide.
        -- destruct (decide (id ∈ rest)) as [Hin|Hnin].
           ++ rewrite decide_True; [done|by right].
           ++ rewrite decide_False; [done|].
              intros [?|?]%elem_of_cons; done.
      * intros id. rewrite Hmem, elem_of_cons. split.
        -- intros [Hin Hs]. split; [by right|done].
        -- intros [[->|Hin] Hs]; [|done]. rewrite Hnone in Hs. by destruct Hs.
Qed.

Lemma kernel_step_callid (st st' : FoldState) (k k' : Kernel) :
  kernel_step st k = Ok (st', k') → callid k' = callid k.
Proof.
  unfold kernel_step. intros (seqId0 & _ & H)%bind_Ok.
  case_decide; [by injection H as <- <-|].
  destruct (negb _); [done|].
  apply bind_Ok in H as (c & _ & H).
  apply bind_Ok in H as (b & _ & H).
  apply bind_Ok in H as ([s1 a1] & _ & H).
  apply bind_Ok in H as (a2 & _ & H). by injection H as <- <-.
Qed.

Lemma run_inv_init (st : FoldState) (m0 : gmap Z (list string)) :
  run_inv m0 (mkRun st m0 [] []).
Proof.
  unfold run_inv. simpl. split_and!; [constructor| |].
  - intros id. split; [by intros ?%elem_of_nil|].
    by intros (_ & k & ?%elem_of_nil & _).
  - intros id. by destruct (decide (id ∈ [])) as [?%elem_of_nil|].
Qed.

Lemma kernel_iter_inv (m0 : gmap Z (list string)) (r r' : Run) (k : Kernel) :
  run_inv m0 r → kernel_iter r k = Ok r' →
  run_inv m0 r' ∧ ∀ id, id ∈ callid k → markers r' !! id = None.
Proof.
  intros (Hnd & Hmem & Hlook) Hit. unfold kernel_iter in Hit.
  destruct (kernel_step (fstate r) k) as [[st' k']|e] eqn:Hstep; [|done].
  simpl in Hit. pose proof (kernel_step_callid _ _ _ _ Hstep) as Hcall.
  destruct (pop_callids_spec (callid k') (markers r)) as (Hl & Hn & Hm).
  destruct (pop_callids (callid k') (markers r)) as [m' pops].
  simpl in *. injection Hit as <-. unfold run_inv. simpl.
  assert (∀ id, id ∈ pops → id ∉ popped r) as Hdisj.
  { intros id [_ Hs]%Hm Hin. rewrite Hlook, decide_True in Hs by done.
    by destruct Hs. }
  split; [split_and!|].
  - apply NoDup_app. split_and!; [done| |done].
    intros id Hin Hin'. by apply (Hdisj id).
  - intros id. rewrite elem_of_app, Hmem, Hm. split.
    + intros [(Hs & k0 & Hk0 & Hid)|[Hid Hs]].
      * split; [done|]. exists k0. split; [|done]. apply elem_of_app. by left.
      * split.
        -- rewrite Hlook in Hs. by case_decide; [destruct Hs|].
        -- exists k'. split; [|done]. apply elem_of_app. right. left.
    + intros (Hs & k0 & [Hk0|Hk0]%elem_of_app & Hid).
      * left. split; [done|]. by exists k0.
      * apply list_elem_of_singleton in Hk0 as ->.
        destruct (decide (id ∈ popped r)) as [Hp|Hp].
        -- left. by apply Hmem.
        -- right. split; [done|]. by rewrite Hlook, decide_False.
  - intros id. rewrite Hl.
    destruct (decide (id ∈ popped r)) as [Hp|Hp].
    + rewrite (decide_True (P := id ∈ popped r ++ pops))
        by (apply elem_of_app; by left).
      case_decide; [done|]. by rewrite Hlook, decide_True.
    + rewrite Hlook, (decide_False (P := id ∈ popped r)) by done.
      destruct (decide (id ∈ callid k')) as [Hc|Hc].
      * destruct (m0 !! id) as [v|] eqn:Hv; [|by case_decide].
        rewrite decide_True; [done|]. apply elem_of_app. right.
        apply Hm. split; [done|]. by rewrite Hlook, decide_False, Hv.
      * rewrite decide_False; [done|].
        intros [?|[? _]%Hm]%elem_of_app; done.
  - intros id Hid. rewrite Hl, decide_True; [done|]. by rewrite Hcall.
Qed.

Lemma main_kernels_inv (m0 : gmap Z (list string)) (r0 r : Run) (l : list Kernel) :
  run_inv m0 r0 → main_kernels r0 l = (r, None) → run_inv m0 r.
Proof.
  revert r0. induction l as [|k l IH]; intros r0 Hinv; simpl.
  - by intros [= <-].
  - destruct (kernel_iter r0 k) as [r'|e] eqn:Hit; [|done].
    apply IH. by destruct (kernel_iter_inv m0 r0 r' k Hinv Hit).
Qed.

(** Every marker left gets a record, in the order of the list. *)
Lemma main_markers_ids (eval : string → option pyobj)
    (getEncapsulatingMarkers : pyval → pyval → pyval → list string)
    (ms : list (Z * list string)) (cs : list (Z * CpuKernel)) :
  main_markers eval getEncapsulatingMarkers ms = (cs, None) → cs.*1 = ms.*1.
Proof.
  revert cs. induction ms as [|[marker txt] ms IH]; intros cs; simpl.
  - by intros [= <-].
  - destruct (reconcile _ _ txt) as [k|e]; [|done].
    destruct (main_markers _ _ ms) as [out e]. intros [= <- ->].
    rewrite !fmap_cons. f_equal. by apply IH.
Qed.

Lemma main_kernels_snoc_inv (m0 : gmap Z (list string)) (r0 r1 : Run)
    (pre : list Kernel) (k : Kernel) :
  run_inv m0 r0 → main_kernels r0 (pre ++ [k]) = (r1, None) →
  run_inv m0 r1 ∧ ∀ id, id ∈ callid k → markers r1 !! id = None.
Proof.
  intros Hinv. rewrite main_kernels_app.
  destruct (main_kernels r0 pre) as [rp [e|]] eqn:Hpre; [done|]. simpl.
  destruct (kernel_iter rp k) as [r'|e] eqn:Hit; [|done]. intros [= <-].
  eapply kernel_iter_inv; [|done]. by eapply main_kernels_inv.
Qed.

(** The markers that are left, in the order of the dict. *)
Lemma leftover_fst (d : pydict) (m : gmap Z (list string)) :
  (leftover d m).*1 = filter (λ id, is_Some (m !! id)) (py_items d).*1.
Proof.
  unfold leftover. induction ((py_items d).*1) as [|id l IH]; [done|].
  simpl. destruct (m !! id) as [txt|] eqn:Hid; simpl.
  - rewrite filter_cons_True by (by rewrite Hid). f_equal. exact IH.
  - rewrite filter_cons_False by (rewrite Hid; by intros [? ?]). exact IH.
Qed.

Lemma leftover_NoDup (d : pydict) (m : gmap Z (list string)) :
  NoDup (leftover d m).*1.
Proof. rewrite leftover_fst. apply NoDup_filter, py_items_NoDup. Qed.

Lemma leftover_elem (d : pydict) (m : gmap Z (list string)) (id : Z) (txt : list string) :
  (id, txt) ∈ leftover d m ↔ id ∈ (py_items d).*1 ∧ m !! id = Some txt.
Proof.
  unfold leftover. rewrite list_elem_of_omap. split.
  - intros (id' & Hin & Hsome).
    destruct (m !! id') as [txt'|] eqn:Hid; simpl in Hsome; [|done].
    by injection Hsome as -> ->.
  - intros [Hin Hid]. exists id. split; [done|]. by rewrite Hid.
Qed.

Lemma py_map_keys (d : pydict) (id : Z) :
  is_Some (py_map d !! id) ↔ id ∈ (py_items d).*1.
Proof.
  unfold py_map. rewrite <-elem_of_dom, dom_list_to_map_L.
  apply elem_of_list_to_set.
Qed.

Lemma leftover_ids (d : pydict) (m : gmap Z (list string)) (id : Z) :
  m ⊆ py_map d → id ∈ (leftover d m).*1 ↔ is_Some (m !! id).
Proof.
  intros Hsub. rewrite leftover_fst, list_elem_of_filter.
  split; [by intros [? _]|]. intros [txt Hid]. split; [by eexists|].
  apply py_map_keys. exists txt.
  by apply (proj1 (map_subseteq_spec m (py_map d)) Hsub).
Qed.

Lemma leftover_length (d : pydict) (m : gmap Z (list string)) :
  m ⊆ py_map d → length (leftover d m) = size m.
Proof.
  intros Hsub. rewrite <-(length_fmap fst), <-(size_dom (D := gset Z) m).
  rewrite <-(size_list_to_set (C := gset Z)) by apply leftover_NoDup.
  f_equal. apply set_eq. intros id.
  by rewrite elem_of_list_to_set, leftover_ids, elem_of_dom.
Qed.

Lemma run_inv_subseteq (m0 : gmap Z (list string)) (r : Run) :
  run_inv m0 r → markers r ⊆ m0.
Proof.
  intros (_ & _ & Hlook). apply map_subseteq_spec. intros id txt Hid.
  rewrite Hlook in Hid. by case_decide.
Qed.

Lemma main_Finished_inv (eval : string → option pyobj)
    (getEncapsulatingMarkers : pyval → pyval → pyval → list string)
    (kInfo : list Kernel) (all_markers : pydict)
    (r : Run) (cs : list (Z * CpuKernel)) :
  main eval getEncapsulatingMarkers kInfo all_markers = Finished r cs →
  main_kernels (mkRun init_fold (py_map all_markers) [] []) kInfo = (r, None) ∧
  main_markers eval getEncapsulatingMarkers (leftover all_markers (markers r))
    = (cs, None).
Proof.
  unfold main. case_decide as Hk; [done|].
  destruct (main_kernels _ kInfo) as [r' [e|]] eqn:Hrun; [done|].
  destruct (main_markers _ _ _) as [cs' [e|]] eqn:Hms; [done|].
  by intros [= <- <-].
Qed.

(** C6: in a run that goes through both loops, the marker ids popped
    for the kernels printed (the markers in their [callid] lists) and the
    ids of the markers that get a "cpu_kernel" record are disjoint sets
    whose union is the set of all markers; no id is popped twice, and
    once a kernel is done none of its [callid] ids is in [markers]. *)
Theorem C6_consumed_reconciled_partition
    (eval : string → option pyobj)
    (getEncapsulatingMarkers : pyval → pyval → pyval → list string)
    (kInfo : list Kernel) (all_markers : pydict)
    (r : Run) (cs : list (Z * CpuKernel)) :
  main eval getEncapsulatingMarkers kInfo all_markers = Finished r cs →
  (∀ id, id ∈ popped r ↔
         id ∈ dom (py_map all_markers) ∧ ∃ k, k ∈ printed r ∧ id ∈ callid k) ∧
  (list_to_set (popped r) : gset Z) ## list_to_set cs.*1 ∧
  (list_to_set (popped r) : gset Z) ∪ list_to_set cs.*1
    = dom (py_map all_markers) ∧
  NoDup (popped r) ∧ NoDup cs.*1 ∧
  (∀ pre k post, kInfo = pre ++ k :: post →
     ∃ r1, main_kernels (mkRun init_fold (py_map all_markers) [] []) (pre ++ [k])
             = (r1, None) ∧
           ∀ id, id ∈ callid k → markers r1 !! id = None).
Proof.
  intros [Hrun Hms]%main_Finished_inv.
  pose proof (main_kernels_inv (py_map all_markers) _ _ _
                (run_inv_init init_fold (py_map all_markers)) Hrun) as Hinv.
  pose proof (run_inv_subseteq _ _ Hinv) as Hsub.
  destruct Hinv as (Hnd & Hmem & Hlook).
  apply main_markers_ids in Hms.
  assert (∀ id, id ∈ cs.*1 ↔ is_Some (markers r !! id)) as Hcs.
  { intros id. rewrite Hms. by apply leftover_ids. }
  split_and!.
  - intros id. rewrite Hmem. by rewrite elem_of_dom.
  - apply elem_of_disjoint. intros id Hp Hc.
    apply elem_of_list_to_set in Hp. apply elem_of_list_to_set in Hc.
    apply Hcs in Hc. rewrite Hlook, decide_True in Hc by done. by destruct Hc.
  - apply set_eq. intros id.
    rewrite elem_of_union, !elem_of_list_to_set, Hcs, Hlook, elem_of_dom.
    case_decide as Hp.
    + split; [|by left]. intros _. by apply Hmem in Hp as [? _].
    + split; [by intros [?|?]|by right].
  - done.
  - rewrite Hms. apply leftover_NoDup.
  - intros pre k post ->.
    replace (pre ++ k :: post) with ((pre ++ [k]) ++ post) in Hrun
      by (by rewrite <-app_assoc).
    rewrite main_kernels_app in Hrun.
    destruct (main_kernels _ (pre ++ [k])) as [r1 [e|]] eqn:Hpre; [done|].
    exists r1. split; [done|].
    by destruct (main_kernels_snoc_inv (py_map all_markers) _ _ _ _
                   (run_inv_init init_fold (py_map all_markers)) Hpre).
Qed.

Lemma C6_consumed_reconciled_partition_witness :
  ∃ r cs,
    main sample_eval sample_encapsulating
      [mkKernel [3] [] 0 "fprop" ["linear"] ["na"] [1; 1; 5];
       mkKernel [] [] 0 "none" ["view"] ["Tensor"] [1]]
      sample_markers
      = Finished r cs ∧
    popped r = [1] ∧ cs.*1 = [2] ∧
    (list_to_set (popped r) : gset Z) ## list_to_set cs.*1 ∧
    (list_to_set (popped r) : gset Z) ∪ list_to_set cs.*1
      = dom (py_map sample_markers) ∧
    NoDup (popped r).
Proof.
  eexists _, _. split; [vm_compute; reflexivity|].
  split; [reflexivity|]. split; [reflexivity|].
  edestruct (C6_consumed_reconciled_partition sample_eval sample_encapsulating
            [mkKernel [3] [] 0 "fprop" ["linear"] ["na"] [1; 1; 5];
             mkKernel [] [] 0 "none" ["view"] ["Tensor"] [1]]
            sample_markers)
    as (_ & Hdisj & Hunion & Hnd & _); [vm_compute; reflexivity|].
  exact (conj Hdisj (conj Hunion Hnd)).
Defined.

(** * Further properties of the two loops *)

(** ** Zero pruning, exactly *)

Lemma py_remove_first (x : Z) (l1 l2 : list Z) :
  x ∉ l1 → py_remove x (l1 ++ x :: l2) = Ok (l1 ++ l2).
Proof.
  induction l1 as [|y l1 IH]; intros Hx; simpl.
  - by rewrite decide_True.
  - apply not_elem_of_cons in Hx as [Hxy Hx].
    rewrite decide_False by done. by rewrite IH.
Qed.

Lemma existsb_nonzero_false (l : list Z) :
  existsb (λ seq, negb (bool_decide (seq = 0))) l = false ↔ Forall (λ s, s = 0) l.
Proof.
  induction l as [|y l IH]; simpl; [done|].
  rewrite orb_false_iff, IH, Forall_cons, negb_false_iff, bool_decide_eq_true.
  done.
Qed.

(** X1: a [seqId] without 0 is left as it is; in a [seqId] with a 0,
    line 96 takes out the first 0 and nothing else when some id is not
    0, and leaves the list as it is when every id is 0. *)
Theorem X1_zero_prune_first_zero (l1 l2 : list Z) :
  0 ∉ l1 →
  zero_prune l1 = Ok l1 ∧
  zero_prune (l1 ++ 0 :: l2) =
    Ok (if decide (Forall (λ s, s = 0) (l1 ++ l2))
        then l1 ++ 0 :: l2 else l1 ++ l2).
Proof.
  intros H0. unfold zero_prune. split.
  - rewrite (bool_decide_eq_false_2 (0 ∈ l1)) by done.
    by rewrite andb_false_r.
  - rewrite (bool_decide_eq_true_2 (0 ∈ l1 ++ 0 :: l2))
      by (apply elem_of_app; right; left).
    rewrite andb_true_r.
    destruct (existsb _ (l1 ++ 0 :: l2)) eqn:Hany.
    + rewrite decide_False; [by apply py_remove_first|].
      intros Hall. apply not_false_iff_true in Hany. apply Hany.
      apply existsb_nonzero_false.
      rewrite Forall_app in Hall. destruct Hall as [Ha Hb].
      rewrite Forall_app, Forall_cons. done.
    + rewrite decide_True; [done|].
      apply existsb_nonzero_false in Hany.
      rewrite Forall_app, Forall_cons in Hany. destruct Hany as (Ha & _ & Hb).
      by rewrite Forall_app.
Qed.

Lemma X1_zero_prune_first_zero_witness :
  zero_prune [5] = Ok [5] ∧
  zero_prune ([5] ++ 0 :: [0; 7]) =
    Ok (if decide (Forall (λ s, s = 0) ([5] ++ [0; 7]))
        then [5] ++ 0 :: [0; 7] else [5] ++ [0; 7]).
Proof.
  apply (X1_zero_prune_first_zero [5] [0; 7]).
  intros Hin. apply list_elem_of_singleton in Hin. lia.
Defined.

(** ** The forward choice, whatever the order of [seqId] *)

Lemma filter_first_split (p : Z) (l : list Z) (c : Z) (f : list Z) :
  filter (λ x, p < x) l = c :: f →
  ∃ l1 l2, l = l1 ++ c :: l2 ∧ Forall (λ s, s ≤ p) l1.
Proof.
  induction l as [|y l IH]; [done|].
  destruct (decide (p < y)) as [Hy|Hy].
  - rewrite filter_cons_True by done. intros [= -> _].
    by exists [], l.
  - rewrite filter_cons_False by done. intros (l1 & l2 & -> & Hall)%IH.
    exists (y :: l1), l2. split; [done|]. constructor; [lia|done].
Qed.

(** X2: for a forward kernel with sequence ids, in any order, the id
    chosen is never below [prevSeqId]; it is above exactly when the last
    id of [seqId] is above, and it is then the first id of the list, from
    the left, that is above [prevSeqId]. *)
Theorem X2_fprop_never_lowers (seqId : list Z) (prevSeqId : Z) :
  seqId ≠ [] →
  ∃ c z,
    select_currSeqId "fprop" seqId prevSeqId = Ok c ∧
    last seqId = Some z ∧
    prevSeqId ≤ c ∧
    (prevSeqId < c ↔ prevSeqId < z) ∧
    (prevSeqId < c →
     ∃ l1 l2, seqId = l1 ++ c :: l2 ∧ Forall (λ s, s ≤ prevSeqId) l1).
Proof.
  intros Hne.
  destruct (select_currSeqId_fprop_Ok seqId prevSeqId Hne) as (z & Hz & ->).
  case_bool_decide as Hinc.
  - assert (z ∈ filter (λ x, prevSeqId < x) seqId) as Hin.
    { apply list_elem_of_filter. split; [done|]. by apply last_Some_elem_of. }
    destruct (filter (λ x, prevSeqId < x) seqId) as [|c f] eqn:Hf;
      [by apply elem_of_nil in Hin|].
    assert (prevSeqId < c) as Hc.
    { assert (c ∈ filter (λ x, prevSeqId < x) seqId) as Hcf
        by (rewrite Hf; left).
      by apply list_elem_of_filter in Hcf as [? _]. }
    exists c, z. split_and!; [done|done|lia|done|].
    intros _. by eapply filter_first_split.
  - exists prevSeqId, z. split_and!; [done|done|lia|lia|lia].
Qed.

Lemma X2_fprop_never_lowers_witness :
  ∃ c z,
    select_currSeqId "fprop" [2; 7; 5] 3 = Ok c ∧
    last [2; 7; 5] = Some z ∧
    3 ≤ c ∧
    (3 < c ↔ 3 < z) ∧
    (3 < c → ∃ l1 l2, [2; 7; 5] = l1 ++ c :: l2 ∧ Forall (λ s, s ≤ 3) l1).
Proof. apply (X2_fprop_never_lowers [2; 7; 5] 3). done. Defined.

(** ** The step, read backwards *)

Lemma zero_prune_elem (l l' : list Z) (x : Z) :
  zero_prune l = Ok l' → x ∈ l → x ∈ l' ∨ x = 0.
Proof.
  unfold zero_prune. destruct (_ && _).
  - intros [Hp _]%py_remove_inv Hx. rewrite Hp in Hx.
    apply elem_of_cons in Hx as [->|Hx]; [by right|by left].
  - intros [= <-] Hx. by left.
Qed.

(** All that the step does for a kernel with sequence ids: [moved] are
    the ids that the first loop takes from [seqId], [altSeqId2] is
    [altSeqId] after the second loop, before [list(set(...))]. *)
Lemma kernel_step_full (st : FoldState) (k : Kernel)
    (seqId0 : list Z) (c : Z) (b : bool) :
  zero_prune (seqId k) = Ok seqId0 → seqId0 ≠ [] →
  dir k ∈ ["fprop"; "bprop"] →
  select_currSeqId (dir k) seqId0 (prevSeqId st) = Ok c →
  subseq_cond c st k = Ok b →
  ∃ seqId1 moved altSeqId2,
    kernel_step st k =
      Ok (mkFold c (if b then prevSubSeqId st + 1 else subSeqId k) (OpList (op k)),
          mkKernel seqId1 (list_set_sort altSeqId2)
            (if b then prevSubSeqId st + 1 else subSeqId k)
            (dir k) (op k) (mod_ k) (callid k)) ∧
    move_to_alt c seqId0 (altSeqId k) = Ok (seqId1, altSeqId k ++ moved) ∧
    drop_curr c (altSeqId k ++ moved) = Ok altSeqId2 ∧
    seqId0 ≡ₚ seqId1 ++ moved ∧ seqId1 `sublist_of` seqId0 ∧
    Forall (λ s, s ≠ c) moved ∧
    altSeqId2 `sublist_of` altSeqId k ++ moved ∧
    (∀ x, x ≠ c → x ∈ altSeqId k ++ moved → x ∈ altSeqId2).
Proof.
  intros Hprune Hne Hdir Hsel Hcond.
  destruct (move_to_alt_total c seqId0 (altSeqId k))
    as (seqId1 & moved & Hmove & Hp & Hsub & Hmoved).
  destruct (drop_curr_total c (altSeqId k ++ moved))
    as (alt2 & Hdrop & Hsub2 & Hkeep).
  exists seqId1, moved, alt2. split_and!; try done.
  unfold kernel_step. rewrite Hprune. simpl.
  rewrite decide_False by done.
  rewrite bool_decide_eq_true_2 by done. simpl.
  rewrite Hsel. simpl. rewrite Hcond. simpl.
  rewrite Hmove. simpl. rewrite Hdrop. done.
Qed.

Lemma kernel_step_inv (st st' : FoldState) (k k' : Kernel) :
  kernel_step st k = Ok (st', k') →
  (seqId k = [] ∧ st' = st ∧ k' = k) ∨
  (∃ seqId0 c b seqId1 moved altSeqId2,
     seqId k ≠ [] ∧ dir k ∈ ["fprop"; "bprop"] ∧
     zero_prune (seqId k) = Ok seqId0 ∧ seqId0 ≠ [] ∧
     select_currSeqId (dir k) seqId0 (prevSeqId st) = Ok c ∧
     subseq_cond c st k = Ok b ∧
     st' = mkFold c (if b then prevSubSeqId st + 1 else subSeqId k) (OpList (op k)) ∧
     k' = mkKernel seqId1 (list_set_sort altSeqId2)
            (if b then prevSubSeqId st + 1 else subSeqId k)
            (dir k) (op k) (mod_ k) (callid k) ∧
     move_to_alt c seqId0 (altSeqId k) = Ok (seqId1, altSeqId k ++ moved) ∧
     drop_curr c (altSeqId k ++ moved) = Ok altSeqId2 ∧
     seqId0 ≡ₚ seqId1 ++ moved ∧ seqId1 `sublist_of` seqId0 ∧
     Forall (λ s, s ≠ c) moved ∧
     altSeqId2 `sublist_of` altSeqId k ++ moved ∧
     (∀ x, x ≠ c → x ∈ altSeqId k ++ moved → x ∈ altSeqId2)).
Proof.
  intros Hstep. destruct (decide (seqId k = [])) as [Hnil|Hne].
  - left. rewrite (kernel_step_empty st k Hnil) in Hstep.
    by injection Hstep as <- <-.
  - right. destruct (decide (dir k ∈ ["fprop"; "bprop"])) as [Hdir|Hdir];
      [|by rewrite (kernel_step_assert st k Hne Hdir) in Hstep].
    destruct (zero_prune_Ok (seqId k)) as (seqId0 & Hprune & _ & Hiff).
    assert (seqId0 ≠ []) as Hne0 by (by rewrite Hiff).
    destruct (select_currSeqId_total (dir k) seqId0 (prevSeqId st) Hne0)
      as [c Hsel].
    destruct (subseq_cond_cases c st k) as [[b Hcond]|Hcond].
    + destruct (kernel_step_full st k seqId0 c b)
        as (seqId1 & moved & alt2 & Heq & Hrest); [done..|].
      rewrite Heq in Hstep. injection Hstep as <- <-.
      exists seqId0, c, b, seqId1, moved, alt2.
      destruct Hrest as (? & ? & ? & ? & ? & ? & ?). by split_and!.
    + unfold kernel_step in Hstep. rewrite Hprune in Hstep. simpl in Hstep.
      rewrite decide_False in Hstep by done.
      rewrite bool_decide_eq_true_2 in Hstep by done. simpl in Hstep.
      rewrite Hsel in Hstep. simpl in Hstep. by rewrite Hcond in Hstep.
Qed.

Lemma kernel_iter_Ok_inv (r r' : Run) (k : Kernel) :
  kernel_iter r k = Ok r' →
  ∃ st' k', kernel_step (fstate r) k = Ok (st', k') ∧
            fstate r' = st' ∧ printed r' = printed r ++ [k'].
Proof.
  unfold kernel_iter.
  destruct (kernel_step (fstate r) k) as [[st' k']|e]; [|done]. simpl.
  destruct (pop_callids _ _). intros [= <-]. by exists st', k'.
Qed.

Lemma kernel_iter_Raise_inv (r : Run) (k : Kernel) (e : pyerr) :
  kernel_iter r k = Raise e → kernel_step (fstate r) k = Raise e.
Proof.
  unfold kernel_iter.
  destruct (kernel_step (fstate r) k) as [[st' k']|e']; simpl;
    [|by intros [= ->]].
  destruct (pop_callids _ _). intros [=].
Qed.

(** ** What the loop over the kernels can raise, and where it stops *)

(** X4: the step of a kernel raises nothing when [seqId] is empty, and
    otherwise only the assertion error of line 113, for a direction that
    is neither "fprop" nor "bprop", or the index error of line 125, for a
    direction that is one of them and an [op] or a [mod] without tokens;
    [remove] never fails in it. *)
Theorem X4_kernel_step_raises (st : FoldState) (k : Kernel) (e : pyerr) :
  kernel_step st k = Raise e →
  seqId k ≠ [] ∧
  ((e = AssertionError ∧ dir k ∉ ["fprop"; "bprop"]) ∨
   (e = IndexError ∧ dir k ∈ ["fprop"; "bprop"] ∧ (op k = [] ∨ mod_ k = []))).
Proof.
  intros Hstep.
  destruct (decide (seqId k = [])) as [Hnil|Hne];
    [by rewrite (kernel_step_empty st k Hnil) in Hstep|].
  split; [done|].
  destruct (decide (dir k ∈ ["fprop"; "bprop"])) as [Hdir|Hdir].
  - right. destruct (kernel_step_cases st k Hne Hdir) as [(st' & k' & Hs)|Hs];
      rewrite Hs in Hstep; [done|]. injection Hstep as <-.
    split_and!; [done..|].
    destruct (decide (op k = [])) as [?|Hop]; [by left|].
    destruct (decide (mod_ k = [])) as [?|Hmod]; [by right|].
    destruct (kernel_step_spec st k)
      as (? & ? & ? & ? & ? & _ & _ & _ & _ & _ & Heq & _); [done|].
    by rewrite Heq in Hs.
  - left. rewrite (kernel_step_assert st k Hne Hdir) in Hstep.
    by injection Hstep as <-.
Qed.

Lemma X4_kernel_step_raises_witness :
  seqId (mkKernel [3] [] 0 "fprop" [] ["na"] []) ≠ [] ∧
  ((IndexError = AssertionError ∧
    dir (mkKernel [3] [] 0 "fprop" [] ["na"] []) ∉ ["fprop"; "bprop"]) ∨
   (IndexError = IndexError ∧
    dir (mkKernel [3] [] 0 "fprop" [] ["na"] []) ∈ ["fprop"; "bprop"] ∧
    (op (mkKernel [3] [] 0 "fprop" [] ["na"] []) = [] ∨
     mod_ (mkKernel [3] [] 0 "fprop" [] ["na"] []) = []))).
Proof.
  apply (X4_kernel_step_raises init_fold
           (mkKernel [3] [] 0 "fprop" [] ["na"] []) IndexError).
  reflexivity.
Defined.

Lemma main_kernels_stops (r0 r : Run) (l : list Kernel) (e : pyerr) :
  main_kernels r0 l = (r, Some e) →
  ∃ pre k post,
    l = pre ++ k :: post ∧
    main_kernels r0 pre = (r, None) ∧
    kernel_step (fstate r) k = Raise e ∧
    length (printed r) = (length (printed r0) + length pre)%nat.
Proof.
  revert r0. induction l as [|k l IH]; intros r0; simpl; [done|].
  destruct (kernel_iter r0 k) as [r'|e'] eqn:Hit.
  - intros (pre & k1 & post & -> & Hpre & Hk1 & Hlen)%IH.
    exists (k :: pre), k1, post. simpl. rewrite Hit.
    split_and!; [done..|].
    apply kernel_iter_Ok_inv in Hit as (st' & k' & _ & _ & Hpr).
    rewrite Hlen, Hpr, length_app. simpl. lia.
  - intros [= <- <-]. exists [], k, l. simpl.
    split_and!; [done|done| |lia]. by apply kernel_iter_Raise_inv.
Qed.

(** X5: when the loop over the kernels ends with an exception, it is
    the exception of the first kernel whose step raises; the kernels before
    it are printed, one record each, and nothing after them. *)
Theorem X5_run_stops_at_first_failure (r0 r : Run) (l : list Kernel) (e : pyerr) :
  main_kernels r0 l = (r, Some e) →
  ∃ pre k post,
    l = pre ++ k :: post ∧
    main_kernels r0 pre = (r, None) ∧
    kernel_step (fstate r) k = Raise e ∧
    length (printed r) = (length (printed r0) + length pre)%nat.
Proof. apply main_kernels_stops. Qed.

Lemma X5_run_stops_at_first_failure_witness :
  ∃ pre k post,
    [sample_relu; sample_untagged; sample_relu] = pre ++ k :: post ∧
    main_kernels (mkRun init_fold ∅ [] []) pre
      = (mkRun (mkFold 4 0 (OpList ["relu"])) ∅ [sample_relu] [], None) ∧
    kernel_step (mkFold 4 0 (OpList ["relu"])) k = Raise AssertionError ∧
    length [sample_relu] = (0 + length pre)%nat.
Proof.
  apply (X5_run_stops_at_first_failure (mkRun init_fold ∅ [] [])
           (mkRun (mkFold 4 0 (OpList ["relu"])) ∅ [sample_relu] [])
           [sample_relu; sample_untagged; sample_relu] AssertionError).
  vm_compute. reflexivity.
Defined.

(** ** Along a run *)

Lemma select_currSeqId_fprop_ge (seqId : list Z) (prevSeqId c : Z) :
  select_currSeqId "fprop" seqId prevSeqId = Ok c → prevSeqId ≤ c.
Proof.
  unfold select_currSeqId. rewrite decide_True by done.
  intros (z & _ & H)%bind_Ok. case_bool_decide; [|injection H as <-; lia].
  unfold py_index in H.
  destruct (filter _ seqId !! 0%nat) as [c'|] eqn:Hc; [|done].
  injection H as <-. apply list_elem_of_lookup_2, list_elem_of_filter in Hc. lia.
Qed.

(** X3: along a run in which every kernel with sequence ids is a
    forward one, [prevSeqId] never goes down, whether the run ends well or
    with an exception. *)
Theorem X3_forward_run_monotone (r0 r : Run) (l : list Kernel) (e : option pyerr) :
  Forall (λ k, seqId k = [] ∨ dir k = "fprop") l →
  main_kernels r0 l = (r, e) →
  prevSeqId (fstate r0) ≤ prevSeqId (fstate r).
Proof.
  revert r0. induction l as [|k l IH]; intros r0 Hall; simpl.
  - intros [= <- _]. lia.
  - apply Forall_cons in Hall as [Hk Hall].
    destruct (kernel_iter r0 k) as [r'|e'] eqn:Hit; [|intros [= <- _]; lia].
    intros Hrun. specialize (IH r' Hall Hrun).
    apply kernel_iter_Ok_inv in Hit as (st' & k' & Hstep & Hst' & _).
    rewrite Hst' in IH.
    apply kernel_step_inv in Hstep
      as [(_ & -> & _)|(s0 & c & b & s1 & mv & a2 & Hne & _ & _ & _ & Hsel & _ & -> & _)];
      [done|].
    destruct Hk as [?|Hdir]; [done|]. rewrite Hdir in Hsel.
    apply select_currSeqId_fprop_ge in Hsel. simpl in IH. lia.
Qed.

Lemma X3_forward_run_monotone_witness :
  prevSeqId (fstate (mkRun init_fold ∅ [] []))
  ≤ prevSeqId (fstate (mkRun (mkFold 4 0 (OpList ["relu"])) ∅ [sample_relu] [])).
Proof.
  apply (X3_forward_run_monotone (mkRun init_fold ∅ [] [])
           (mkRun (mkFold 4 0 (OpList ["relu"])) ∅ [sample_relu] [])
           [sample_relu] None).
  - repeat constructor; by right.
  - vm_compute. reflexivity.
Defined.

(** X6: a run without exception prints one record per kernel, in the
    order of the kernels, and the record of a kernel has its direction,
    its [op], its [mod] and its [callid]: the loop only writes [seqId],
    [altSeqId] and [subSeqId]. *)
Theorem X6_one_record_per_kernel (r0 r : Run) (l : list Kernel) :
  main_kernels r0 l = (r, None) →
  ∃ ks, printed r = printed r0 ++ ks ∧
        Forall2 (λ k k', dir k' = dir k ∧ op k' = op k ∧
                         mod_ k' = mod_ k ∧ callid k' = callid k) l ks.
Proof.
  revert r0. induction l as [|k l IH]; intros r0; simpl.
  - intros [= <-]. exists []. by rewrite app_nil_r.
  - destruct (kernel_iter r0 k) as [r'|e'] eqn:Hit; [|done].
    intros (ks & Hpr & Hall)%IH.
    apply kernel_iter_Ok_inv in Hit as (st' & k' & Hstep & _ & Hpr').
    exists (k' :: ks). split; [by rewrite Hpr, Hpr', <-app_assoc|].
    constructor; [|done].
    apply kernel_step_inv in Hstep
      as [(_ & _ & ->)|(s0 & c & b & s1 & mv & a2 & _ & _ & _ & _ & _ & _ & _ & -> & _)];
      done.
Qed.

Lemma X6_one_record_per_kernel_witness :
  ∃ ks, [sample_relu] = [] ++ ks ∧
        Forall2 (λ k k', dir k' = dir k ∧ op k' = op k ∧
                         mod_ k' = mod_ k ∧ callid k' = callid k)
                [sample_relu] ks.
Proof.
  apply (X6_one_record_per_kernel (mkRun init_fold ∅ [] [])
           (mkRun (mkFold 4 0 (OpList ["relu"])) ∅ [sample_relu] [])
           [sample_relu]).
  vm_compute. reflexivity.
Defined.

(** X11: in a run from the start, when no kernel comes with a negative
    [subSeqId], no record printed has one, and [prevSubSeqId] stays at -1
    or above. *)
Theorem X11_subSeqId_not_negative (m0 : gmap Z (list string)) (r : Run)
    (l : list Kernel) (e : option pyerr) :
  Forall (λ k, 0 ≤ subSeqId k) l →
  main_kernels (mkRun init_fold m0 [] []) l = (r, e) →
  Forall (λ k', 0 ≤ subSeqId k') (printed r) ∧ -1 ≤ prevSubSeqId (fstate r).
Proof.
  assert (∀ r0,
    Forall (λ k, 0 ≤ subSeqId k) l →
    Forall (λ k', 0 ≤ subSeqId k') (printed r0) → -1 ≤ prevSubSeqId (fstate r0) →
    main_kernels r0 l = (r, e) →
    Forall (λ k', 0 ≤ subSeqId k') (printed r) ∧ -1 ≤ prevSubSeqId (fstate r))
    as Hgen.
  { induction l as [|k l IH]; intros r0 Hall Hpr Hprev; simpl.
    - by intros [= <- _].
    - apply Forall_cons in Hall as [Hk Hall].
      destruct (kernel_iter r0 k) as [r'|e'] eqn:Hit; [|by intros [= <- _]].
      apply kernel_iter_Ok_inv in Hit as (st' & k' & Hstep & Hfs & Hpr').
      assert (0 ≤ subSeqId k' ∧ -1 ≤ prevSubSeqId (fstate r')) as [Hk' Hst'].
      { rewrite Hfs. apply kernel_step_inv in Hstep
          as [(_ & -> & ->)|(s0 & c & b & s1 & mv & a2 & _ & _ & _ & _ & _ & _ & -> & -> & _)];
          [done|].
        simpl. destruct b; lia. }
      apply IH; [done| |done].
      rewrite Hpr'. apply Forall_app. split; [done|]. by constructor. }
  intros Hall. apply Hgen; [done|constructor|simpl; lia].
Qed.

Lemma X11_subSeqId_not_negative_witness :
  Forall (λ k', 0 ≤ subSeqId k')
    (printed (mkRun (mkFold 4 0 (OpList ["relu"])) ∅ [sample_relu] [])) ∧
  -1 ≤ prevSubSeqId (fstate (mkRun (mkFold 4 0 (OpList ["relu"])) ∅ [sample_relu] [])).
Proof.
  apply (X11_subSeqId_not_negative ∅
           (mkRun (mkFold 4 0 (OpList ["relu"])) ∅ [sample_relu] [])
           [sample_relu; sample_untagged] (Some AssertionError)).
  - repeat constructor; simpl; lia.
  - vm_compute. reflexivity.
Defined.

(** ** The ids of a record *)

Lemma zero_prune_sublist (l l' : list Z) :
  zero_prune l = Ok l' → l' `sublist_of` l.
Proof.
  intros H. destruct (zero_prune_Ok l) as (l'' & H' & Hs & _).
  rewrite H in H'. by injection H' as <-.
Qed.

(** X7: the step of a kernel invents no id and loses none but a pruned
    0 and, from [altSeqId], the id chosen: the ids of the record come from
    [seqId] and [altSeqId] of the kernel, every id of [seqId] other than 0
    is in [seqId] or [altSeqId] of the record, every id of [altSeqId] other
    than the id chosen is in [altSeqId] of the record; and [altSeqId] of
    the record of a kernel with sequence ids is strictly ascending. *)
Theorem X7_ids_conserved (st st' : FoldState) (k k' : Kernel) :
  kernel_step st k = Ok (st', k') →
  (∀ x, x ∈ seqId k' ∨ x ∈ altSeqId k' → x ∈ seqId k ∨ x ∈ altSeqId k) ∧
  (∀ x, x ∈ seqId k → x ∈ seqId k' ∨ x ∈ altSeqId k' ∨ x = 0) ∧
  (∀ x, x ∈ altSeqId k → x ∈ altSeqId k' ∨ x = prevSeqId st') ∧
  (seqId k ≠ [] → StronglySorted Z.lt (altSeqId k')).
Proof.
  intros [(Hnil & -> & ->)|(s0 & c & b & s1 & mv & a2 & Hne & _ & Hprune & _ & _ & _
                            & -> & -> & _ & _ & Hp & Hsub & Hmv & Hsub2 & Hkeep)]%kernel_step_inv.
  - split_and!; [tauto|tauto|tauto|done].
  - simpl. pose proof (zero_prune_sublist _ _ Hprune) as Hs0.
    assert (∀ x, x ∈ mv → x ∈ s0) as Hmv0.
    { intros x Hx. rewrite Hp. apply elem_of_app. by right. }
    split_and!.
    + intros x [Hx|Hx].
      * left. eapply sublist_elem_of; [exact Hs0|].
        by eapply sublist_elem_of.
      * rewrite elem_of_list_set_sort in Hx.
        apply (sublist_elem_of _ _ _ Hsub2) in Hx.
        apply elem_of_app in Hx as [Hx|Hx]; [by right|].
        left. eapply sublist_elem_of; [exact Hs0|]. by apply Hmv0.
    + intros x Hx. destruct (zero_prune_elem _ _ x Hprune Hx) as [Hx0 | ->];
        [|by right; right].
      rewrite Hp in Hx0. apply elem_of_app in Hx0 as [Hx0|Hx0]; [by left|].
      right; left. apply elem_of_list_set_sort, Hkeep.
      * rewrite Forall_forall in Hmv. by apply Hmv.
      * apply elem_of_app. by right.
    + intros x Hx. destruct (decide (x = c)) as [->|Hxc]; [by right|].
      left. apply elem_of_list_set_sort, Hkeep; [done|].
      apply elem_of_app. by left.
    + intros _. apply list_set_sort_ascending.
Qed.

Lemma X7_ids_conserved_witness :
  (∀ x, x ∈ [5; 9] ∨ x ∈ [7] → x ∈ [5; 7; 9] ∨ x ∈ @nil Z) ∧
  (∀ x, x ∈ [5; 7; 9] → x ∈ [5; 9] ∨ x ∈ [7] ∨ x = 0) ∧
  (∀ x, x ∈ @nil Z → x ∈ [7] ∨ x = 5) ∧
  ([5; 7; 9] ≠ [] → StronglySorted Z.lt [7]).
Proof.
  apply (X7_ids_conserved init_fold (mkFold 5 0 (OpList ["linear"]))
           (mkKernel [5; 7; 9] [] 0 "fprop" ["linear"] ["na"] [])
           (mkKernel [5; 9] [7] 0 "fprop" ["linear"] ["na"] [])).
  vm_compute. reflexivity.
Defined.

(** X8: the id chosen is never moved out of [seqId].  For a backward
    kernel, and for a forward kernel whose last id is above [prevSeqId],
    the id chosen is an id of [seqId] after zero pruning, and so it is in
    [seqId] of the record; a forward kernel that keeps [prevSeqId] has it
    in the record only if it was among its ids. *)
Theorem X8_chosen_id_stays (st st' : FoldState) (k k' : Kernel) (seqId0 : list Z) :
  kernel_step st k = Ok (st', k') → seqId k ≠ [] →
  zero_prune (seqId k) = Ok seqId0 →
  (prevSeqId st' ∈ seqId0 → prevSeqId st' ∈ seqId k') ∧
  (dir k = "bprop" ∨ (∃ z, last seqId0 = Some z ∧ prevSeqId st < z) →
   prevSeqId st' ∈ seqId0).
Proof.
  intros [(Hnil & _)|(s0 & c & b & s1 & mv & a2 & _ & Hdir & Hprune & _ & Hsel & _
                      & -> & -> & _ & _ & Hp & _ & Hmv & _)]%kernel_step_inv Hne Hprune';
    [done|].
  rewrite Hprune in Hprune'. injection Hprune' as <-. simpl. split.
  - intros Hc. rewrite Hp in Hc. apply elem_of_app in Hc as [Hc|Hc]; [done|].
    rewrite Forall_forall in Hmv. by destruct (Hmv c Hc).
  - intros Hcase. unfold select_currSeqId in Hsel. case_decide as Hf.
    + destruct Hcase as [Hb|(z & Hz & Hlt)]; [by rewrite Hb in Hf|].
      unfold py_last in Hsel. rewrite Hz in Hsel. simpl in Hsel.
      rewrite bool_decide_eq_true_2 in Hsel by done.
      unfold py_index in Hsel.
      destruct (filter _ s0 !! 0%nat) as [c'|] eqn:Hc; [|done].
      injection Hsel as <-.
      by apply list_elem_of_lookup_2, list_elem_of_filter in Hc as [_ ?].
    + unfold py_index in Hsel.
      destruct (s0 !! 0%nat) as [c'|] eqn:Hc; [|done].
      injection Hsel as <-. by eapply list_elem_of_lookup_2.
Qed.

Lemma X8_chosen_id_stays_witness :
  (prevSeqId (mkFold 9 0 (OpList ["linear"])) ∈ [9; 4; 2] →
   prevSeqId (mkFold 9 0 (OpList ["linear"]))
   ∈ seqId (mkKernel [9; 2] [4] 0 "bprop" ["linear"] ["na"] [])) ∧
  (dir (mkKernel [9; 4; 2] [] 0 "bprop" ["linear"] ["na"] []) = "bprop" ∨
   (∃ z, last [9; 4; 2] = Some z ∧ prevSeqId init_fold < z) →
   prevSeqId (mkFold 9 0 (OpList ["linear"])) ∈ [9; 4; 2]).
Proof.
  apply (X8_chosen_id_stays init_fold (mkFold 9 0 (OpList ["linear"]))
           (mkKernel [9; 4; 2] [] 0 "bprop" ["linear"] ["na"] [])
           (mkKernel [9; 2] [4] 0 "bprop" ["linear"] ["na"] [])
           [9; 4; 2]).
  - vm_compute. reflexivity.
  - done.
  - reflexivity.
Defined.

(** ** The second loop *)

Lemma filter_eq_nil_not_elem (c : Z) (l : list Z) :
  filter (λ x, x = c) l = [] ↔ c ∉ l.
Proof.
  split.
  - intros Hf Hin. assert (c ∈ filter (λ x, x = c) l) as H
      by (by apply list_elem_of_filter).
    rewrite Hf in H. by apply elem_of_nil in H.
  - intros Hc. induction l as [|y l IH]; [done|].
    apply not_elem_of_cons in Hc as [Hy Hc].
    rewrite filter_cons_False by done. by apply IH.
Qed.

Lemma NoDup_filter_eq_length (c : Z) (l : list Z) :
  NoDup l → (length (filter (λ x, x = c) l) ≤ 1)%nat.
Proof.
  induction 1 as [|y l Hy Hnd IH]; simpl; [lia|].
  destruct (decide (y = c)) as [->|Hyc].
  - rewrite filter_cons_True by done. simpl.
    by rewrite (proj2 (filter_eq_nil_not_elem c l) Hy).
  - by rewrite filter_cons_False.
Qed.

Lemma drop_curr_loop_done (fuel : nat) (c : Z) (i : nat) (altSeqId : list Z) :
  altSeqId !! i = None → drop_curr_loop fuel c i altSeqId = Ok altSeqId.
Proof. intros H. destruct fuel; simpl; by rewrite H. Qed.

(** An [altSeqId] with the id chosen at most once has it no more after
    the loop of line 140. *)
Lemma drop_curr_loop_unique (fuel : nat) (c : Z) (i : nat) (altSeqId alt' : list Z) :
  (length altSeqId - i ≤ fuel)%nat →
  c ∉ take i altSeqId →
  (length (filter (λ x, x = c) altSeqId) ≤ 1)%nat →
  drop_curr_loop fuel c i altSeqId = Ok alt' → c ∉ alt'.
Proof.
  revert i altSeqId.
  induction fuel as [|fuel IH]; intros i alt Hfuel Htake Hone.
  - rewrite drop_curr_loop_done by (apply lookup_ge_None_2; lia).
    intros [= <-]. by rewrite take_ge in Htake by lia.
  - simpl. destruct (alt !! i) as [s|] eqn:Hs.
    + pose proof (lookup_lt_Some _ _ _ Hs) as Hlt. case_decide as Hsc.
      * subst s. intros (alt1 & Hrem & Hloop)%bind_Ok.
        destruct (py_remove_inv _ _ _ Hrem) as [Hp _].
        assert (c ∉ alt1) as Hc1.
        { apply filter_eq_nil_not_elem. rewrite Hp in Hone.
          rewrite filter_cons_True in Hone by done. simpl in Hone.
          apply length_zero_iff_nil. lia. }
        assert (length alt = S (length alt1)) as Hlen by (by rewrite Hp).
        destruct (drop_curr_loop_Ok fuel c (S i) alt1) as (alt'' & Heq & Hsub & _);
          [lia|].
        rewrite Heq in Hloop. injection Hloop as <-.
        intros Hin. apply Hc1. by eapply sublist_elem_of.
      * apply IH; [lia| |done].
        rewrite (take_S_r _ _ _ Hs). intros [?|Hin]%elem_of_app; [done|].
        apply list_elem_of_singleton in Hin. by subst.
    + intros [= <-]. apply lookup_ge_None_1 in Hs.
      by rewrite take_ge in Htake by lia.
Qed.

(** X10: when the kernel comes with an [altSeqId] without repeated
    ids, the id chosen is not in [altSeqId] of the record. *)
Theorem X10_chosen_id_not_in_altSeqId (st st' : FoldState) (k k' : Kernel) :
  kernel_step st k = Ok (st', k') → seqId k ≠ [] → NoDup (altSeqId k) →
  prevSeqId st' ∉ altSeqId k'.
Proof.
  intros [(Hnil & _)|(s0 & c & b & s1 & mv & a2 & _ & _ & _ & _ & _ & _
                      & -> & -> & _ & Hdrop & _ & _ & Hmv & _)]%kernel_step_inv Hne Hnd;
    [done|].
  simpl. rewrite elem_of_list_set_sort.
  eapply (drop_curr_loop_unique _ c 0%nat); [| | |exact Hdrop].
  - lia.
  - rewrite take_0. by intros ?%elem_of_nil.
  - rewrite filter_app, length_app.
    assert (filter (λ x, x = c) mv = []) as ->.
    { apply filter_eq_nil_not_elem. intros Hin.
      rewrite Forall_forall in Hmv. by destruct (Hmv c Hin). }
    simpl. pose proof (NoDup_filter_eq_length c _ Hnd). lia.
Qed.

Lemma X10_chosen_id_not_in_altSeqId_witness :
  prevSeqId (mkFold 5 0 (OpList ["linear"]))
  ∉ altSeqId (mkKernel [5] [2; 7] 0 "fprop" ["linear"] ["na"] []).
Proof.
  apply (X10_chosen_id_not_in_altSeqId (mkFold 3 0 (OpStr "na"))
           (mkFold 5 0 (OpList ["linear"]))
           (mkKernel [5; 7] [5; 2] 0 "fprop" ["linear"] ["na"] [])
           (mkKernel [5] [2; 7] 0 "fprop" ["linear"] ["na"] [])).
  - vm_compute. reflexivity.
  - done.
  - apply (bool_decide_unpack _). by vm_compute.
Defined.

(** ** The first loop, in closed form *)

Lemma move_to_alt_loop_done (fuel : nat) (c : Z) (i : nat) (seqId altSeqId : list Z) :
  seqId !! i = None → move_to_alt_loop fuel c i seqId altSeqId = Ok (seqId, altSeqId).
Proof. intros H. destruct fuel; simpl; by rewrite H. Qed.

Lemma move_to_alt_loop_skip (fuel : nat) (c : Z) (pre suf altSeqId : list Z) :
  NoDup (pre ++ suf) → (length suf ≤ fuel)%nat →
  move_to_alt_loop fuel c (length pre) (pre ++ suf) altSeqId =
    Ok (pre ++ (skip_partition c suf).1, altSeqId ++ (skip_partition c suf).2).
Proof.
  revert pre suf altSeqId.
  induction fuel as [|fuel IH]; intros pre suf alt Hnd Hfuel.
  - destruct suf as [|s rest]; [|simpl in Hfuel; lia]. simpl.
    rewrite !app_nil_r. by rewrite lookup_ge_None_2.
  - destruct suf as [|s rest].
    + simpl. rewrite !app_nil_r. by rewrite lookup_ge_None_2.
    + cbn [move_to_alt_loop]. rewrite list_lookup_middle by done.
      apply NoDup_app in Hnd as Hnd'. destruct Hnd' as (Hpre & Hdisj & Hsuf).
      simpl in Hfuel. cbn [skip_partition]. case_decide as Hsc.
      * rewrite py_remove_first
          by (intros Hin; apply (Hdisj s Hin); left).
        simpl. destruct rest as [|y rest'].
        -- rewrite move_to_alt_loop_done
             by (rewrite app_nil_r; apply lookup_ge_None_2; lia).
           simpl. by rewrite !app_nil_r.
        -- replace (pre ++ y :: rest') with ((pre ++ [y]) ++ rest')
             by (by rewrite <-app_assoc).
           replace (S (length pre)) with (length (pre ++ [y]))
             by (rewrite length_app; simpl; lia).
           rewrite IH.
           ++ destruct (skip_partition c rest') as [kept moved]. simpl.
              by rewrite <-!app_assoc.
           ++ rewrite <-app_assoc. simpl.
              apply NoDup_app. split_and!; [done| |].
              ** intros x Hx Hin. apply (Hdisj x Hx). by right.
              ** by apply NoDup_cons in Hsuf as [_ ?].
           ++ simpl in Hfuel. lia.
      * replace (pre ++ s :: rest) with ((pre ++ [s]) ++ rest)
          by (by rewrite <-app_assoc).
        replace (S (length pre)) with (length (pre ++ [s]))
          by (rewrite length_app; simpl; lia).
        rewrite IH.
        -- destruct (skip_partition c rest) as [kept moved]. simpl.
           by rewrite <-!app_assoc.
        -- by rewrite <-app_assoc.
        -- lia.
Qed.

(** X9: on a [seqId] without repeated ids the loop of line 135 does
    what [skip_partition] says: after each id that it moves to [altSeqId],
    the next id of the list stays in [seqId] without being compared with
    the id chosen. *)
Theorem X9_move_loop_skips (c : Z) (seqId altSeqId : list Z) :
  NoDup seqId →
  move_to_alt c seqId altSeqId =
    Ok ((skip_partition c seqId).1, altSeqId ++ (skip_partition c seqId).2).
Proof.
  intros Hnd. unfold move_to_alt.
  by apply (move_to_alt_loop_skip (length seqId) c [] seqId altSeqId).
Qed.

Lemma X9_move_loop_skips_witness :
  move_to_alt 5 [2; 3; 5; 7; 9; 11] [1] =
    Ok ((skip_partition 5 [2; 3; 5; 7; 9; 11]).1,
        [1] ++ (skip_partition 5 [2; 3; 5; 7; 9; 11]).2).
Proof.
  apply (X9_move_loop_skips 5 [2; 3; 5; 7; 9; 11] [1]).
  apply (bool_decide_unpack _). by vm_compute.
Defined.


(** ** The record of a marker without kernel *)

Section ReconcilerMore.

Variable eval : string → option pyobj.
Variable getEncapsulatingMarkers : pyval → pyval → pyval → list string.

(** One marker of the loop of line 170 whose text holds the word: what
    it does to [marker_fn] when [eval] gives a value the loop can read. *)
Lemma funcStack_step (x : pyobj) :
  funcStack_readable x →
  ∃ has, py_contains "funcStack" x = Ok has ∧
         (has = true → ∃ v, py_subscript x "funcStack" = Ok v).
Proof.
  destruct x as [d|[z|s0|l0]]; simpl; [|done| |].
  - intros _. eexists. split; [done|].
    intros [v Hv]%bool_decide_eq_true. exists v. unfold py_getitem. by rewrite Hv.
  - intros ->. by exists false.
  - intros Hl. exists false. by rewrite bool_decide_eq_false_2.
Qed.

Lemma funcStack_step_not (x : pyobj) :
  ¬ funcStack_readable x →
  py_contains "funcStack" x = Raise TypeError ∨
  (py_contains "funcStack" x = Ok true ∧
   py_subscript x "funcStack" = Raise TypeError).
Proof.
  destruct x as [d|[z|s0|l0]]; simpl; [done|by left| |].
  - intros Hs. right. split; [|done]. by destruct (py_in_str "funcStack" s0).
  - intros Hl. right. split; [|done]. rewrite bool_decide_eq_true_2; [done|].
    by destruct (decide ("funcStack" ∈ l0)).
Qed.

Lemma scan_funcStack_Ok_iff (marker_fn : pyval) (l : list string) :
  (∃ v, scan_funcStack eval marker_fn l = Ok v) ↔
  Forall (λ m, py_in_str "funcStack" m = true →
               ∃ x, eval m = Some x ∧ funcStack_readable x) l.
Proof.
  revert marker_fn. induction l as [|m l IH]; intros fn; simpl.
  - split; [constructor|by eexists].
  - rewrite Forall_cons. destruct (py_in_str "funcStack" m) eqn:Hin;
      [|rewrite IH; split; [by intros ?; split|by intros [_ ?]]].
    unfold py_eval. destruct (eval m) as [x|] eqn:Hev; simpl.
    + destruct (decide (funcStack_readable x)) as [Hx|Hx].
      * destruct (funcStack_step x Hx) as (has & -> & Hsub). simpl.
        destruct has.
        -- destruct (Hsub eq_refl) as [v ->]. simpl. rewrite IH.
           split; [intros ?; split; [by eexists|done]|by intros [_ ?]].
        -- rewrite IH.
           split; [intros ?; split; [by eexists|done]|by intros [_ ?]].
      * split.
        -- intros [v Hv]. destruct (funcStack_step_not x Hx) as [Hc|[Hc Hs]];
             rewrite Hc in Hv; simpl in Hv; [done|]. by rewrite Hs in Hv.
        -- intros [Hm _]. destruct (Hm eq_refl) as (x' & [= <-] & ?). done.
    + split; [by intros [v ?]|]. intros [Hm _].
      by destruct (Hm eq_refl) as (x' & ? & _).
Qed.

Lemma scan_funcStack_Raise (marker_fn : pyval) (l : list string) (e : pyerr) :
  scan_funcStack eval marker_fn l = Raise e →
  ∃ m, m ∈ l ∧ py_in_str "funcStack" m = true ∧
       ((e = EvalError ∧ eval m = None) ∨
        (e = TypeError ∧ ∃ x, eval m = Some x ∧ ¬ funcStack_readable x)).
Proof.
  revert marker_fn. induction l as [|m l IH]; intros fn; simpl; [done|].
  assert (∀ fn', scan_funcStack eval fn' l = Raise e →
            ∃ m0, m0 ∈ m :: l ∧ py_in_str "funcStack" m0 = true ∧
                  ((e = EvalError ∧ eval m0 = None) ∨
                   (e = TypeError ∧
                    ∃ x, eval m0 = Some x ∧ ¬ funcStack_readable x)))
    as Hrest.
  { intros fn' (m0 & Hm0 & Hin & Hcase)%IH.
    exists m0. split; [by right|done]. }
  destruct (py_in_str "funcStack" m) eqn:Hin; [|apply Hrest].
  unfold py_eval. destruct (eval m) as [x|] eqn:Hev; simpl.
  - destruct (decide (funcStack_readable x)) as [Hx|Hx].
    + destruct (funcStack_step x Hx) as (has & -> & Hsub). simpl.
      destruct has; [|apply Hrest].
      destruct (Hsub eq_refl) as [v ->]. simpl. apply Hrest.
    + intros He. exists m. split; [left|]. split; [done|]. right.
      destruct (funcStack_step_not x Hx) as [Hc|[Hc Hs]];
        rewrite Hc in He; simpl in He.
      * injection He as <-. split; [done|]. by exists x.
      * rewrite Hs in He. injection He as <-. split; [done|]. by exists x.
  - intros [= <-]. exists m. split; [left|]. split; [done|]. by left.
Qed.

(** X16: the loop of line 170 runs the markers one after the other,
    each part of the list starting from the call stack that the part
    before it left; and the markers whose text does not hold the word
    funcStack play no role: they are not evaluated, and the loop gives
    the same with or without them. *)
Theorem X16_scan_funcStack_compose (marker_fn : pyval) (l1 l2 : list string) :
  scan_funcStack eval marker_fn (l1 ++ l2) =
    (scan_funcStack eval marker_fn l1 ≫= λ v, scan_funcStack eval v l2) ∧
  scan_funcStack eval marker_fn
    (filter (λ m, py_in_str "funcStack" m = true) l1)
  = scan_funcStack eval marker_fn l1.
Proof.
  split.
  - revert marker_fn. induction l1 as [|m l1 IH]; intros fn; simpl; [done|].
    destruct (py_in_str "funcStack" m); [|apply IH].
    destruct (py_eval eval m) as [x|e]; simpl; [|done].
    destruct (py_contains "funcStack" x) as [[|]|e]; simpl; [|apply IH|done].
    destruct (py_subscript x "funcStack") as [v|e]; simpl; [apply IH|done].
  - revert marker_fn. induction l1 as [|m l1 IH]; intros fn; [done|].
    destruct (py_in_str "funcStack" m) eqn:Hin.
    + rewrite filter_cons_True by done. simpl. rewrite Hin.
      destruct (py_eval eval m) as [x|e]; simpl; [|done].
      destruct (py_contains "funcStack" x) as [[|]|e]; simpl; [|apply IH|done].
      destruct (py_subscript x "funcStack") as [v|e]; simpl; [apply IH|done].
    + rewrite filter_cons_False by (by rewrite Hin). simpl. rewrite Hin.
      apply IH.
Qed.

Lemma reconcile_inv (marker_txt : list string) (k : CpuKernel) :
  reconcile eval getEncapsulatingMarkers marker_txt = Ok k →
  ∃ txt0 d,
    head marker_txt = Some txt0 ∧ eval txt0 = Some (ODict d) ∧
    d !! "globalTid" = Some (tid k) ∧ d !! "start" = Some (rStartTime k) ∧
    d !! "end" = Some (rEndTime k) ∧
    scan_funcStack eval (VList [])
      (getEncapsulatingMarkers (tid k) (rStartTime k) (rEndTime k))
      = Ok (marker_fn k) ∧
    k = mkCpu (marker_fn k) marker_txt (rStartTime k) (rEndTime k) 0
          (tid k) (tid k) 0 "cpu_kernel".
Proof.
  unfold reconcile, py_index, py_eval.
  rewrite <-head_lookup.
  destruct (head marker_txt) as [txt0|]; simpl; [|done].
  destruct (eval txt0) as [[d|x]|] eqn:Hev; simpl; [|done..].
  unfold py_getitem.
  destruct (d !! "globalTid") as [gt|] eqn:Hg; simpl; [|done].
  destruct (d !! "start") as [st|] eqn:Hs; simpl; [|done].
  destruct (d !! "end") as [en|] eqn:He; simpl; [|done].
  intros (fn & Hscan & [= <-])%bind_Ok. simpl.
  by exists txt0, d.
Qed.

(** X12: a marker without kernel gets a record exactly when its entry
    in [markers] has a first text, [eval] makes a dict of that text, the
    dict has the keys globalTid, start and end, and for every marker
    around it whose text holds the word funcStack [eval] gives a value
    that lines 173-174 can read: a dict, or a string or a list without
    that word. *)
Theorem X12_reconcile_succeeds_iff (marker_txt : list string) :
  (∃ k, reconcile eval getEncapsulatingMarkers marker_txt = Ok k) ↔
  ∃ txt0 d gt st en,
    head marker_txt = Some txt0 ∧ eval txt0 = Some (ODict d) ∧
    d !! "globalTid" = Some gt ∧ d !! "start" = Some st ∧
    d !! "end" = Some en ∧
    Forall (λ m, py_in_str "funcStack" m = true →
                 ∃ x, eval m = Some x ∧ funcStack_readable x)
           (getEncapsulatingMarkers gt st en).
Proof.
  split.
  - intros [k Hk]. destruct (reconcile_inv _ _ Hk)
      as (txt0 & d & Hh & Hev & Hg & Hs & He & Hscan & _).
    exists txt0, d, (tid k), (rStartTime k), (rEndTime k).
    split_and!; [done..|]. apply (scan_funcStack_Ok_iff (VList [])). by eexists.
  - intros (txt0 & d & gt & st & en & Hh & Hev & Hg & Hs & He & Hall).
    apply (scan_funcStack_Ok_iff (VList [])) in Hall as [v Hv].
    unfold reconcile, py_index, py_eval.
    rewrite <-head_lookup, Hh. simpl. rewrite Hev. simpl.
    unfold py_getitem. rewrite Hg. simpl. rewrite Hs. simpl. rewrite He. simpl.
    rewrite Hv. simpl. by eexists.
Qed.

(** X13: the only exceptions of the loop over the markers are an index
    error for an entry of [markers] without text; the error of [eval] on
    the text of the marker; a type error when [eval] makes of that text a
    value that is no dict; a key error when the dict lacks globalTid, start
    or end; and, for a marker around it whose text holds the word
    funcStack, the error of [eval] or a type error when [eval] gives a
    value that lines 173-174 cannot read. *)
Theorem X13_reconcile_raises (marker_txt : list string) (e : pyerr) :
  reconcile eval getEncapsulatingMarkers marker_txt = Raise e →
  (e = IndexError ∧ marker_txt = []) ∨
  (∃ txt0, head marker_txt = Some txt0 ∧
     ((e = EvalError ∧ eval txt0 = None) ∨
      (e = TypeError ∧ ∃ v, eval txt0 = Some (OVal v)) ∨
      (∃ d, eval txt0 = Some (ODict d) ∧
         ((e = KeyError ∧
           (d !! "globalTid" = None ∨ d !! "start" = None ∨ d !! "end" = None)) ∨
          (∃ gt st en m,
             d !! "globalTid" = Some gt ∧ d !! "start" = Some st ∧
             d !! "end" = Some en ∧ m ∈ getEncapsulatingMarkers gt st en ∧
             py_in_str "funcStack" m = true ∧
             ((e = EvalError ∧ eval m = None) ∨
              (e = TypeError ∧
               ∃ x, eval m = Some x ∧ ¬ funcStack_readable x))))))).
Proof.
  unfold reconcile, py_index, py_eval.
  rewrite <-head_lookup.
  destruct marker_txt as [|txt0 rest]; simpl; [intros [= <-]; by left|].
  intros H. right. exists txt0. split; [done|].
  destruct (eval txt0) as [[d|x]|]; simpl in H;
    [|injection H as <-; right; left; split; [done|by exists x]
     |injection H as <-; by left].
  right; right. exists d. split; [done|]. unfold py_getitem in H.
  destruct (d !! "globalTid") as [gt|]; simpl in H;
    [|injection H as <-; left; split; [done|by left]].
  destruct (d !! "start") as [st|]; simpl in H;
    [|injection H as <-; left; split; [done|by right; left]].
  destruct (d !! "end") as [en|]; simpl in H;
    [|injection H as <-; left; split; [done|by right; right]].
  right.
  destruct (scan_funcStack eval (VList []) (getEncapsulatingMarkers gt st en))
    as [v|e'] eqn:Hscan; simpl in H; [done|].
  injection H as <-.
  apply scan_funcStack_Raise in Hscan as (m & Hm & Hin & Hcase).
  by exists gt, st, en, m.
Qed.

End ReconcilerMore.

Lemma X13_reconcile_raises_witness :
  (TypeError = IndexError ∧ ["20"] = []) ∨
  (∃ txt0, head ["20"] = Some txt0 ∧
     ((TypeError = EvalError ∧ sample_eval txt0 = None) ∨
      (TypeError = TypeError ∧ ∃ v, sample_eval txt0 = Some (OVal v)) ∨
      (∃ d, sample_eval txt0 = Some (ODict d) ∧
         ((TypeError = KeyError ∧
           (d !! "globalTid" = None ∨ d !! "start" = None ∨ d !! "end" = None)) ∨
          (∃ gt st en m,
             d !! "globalTid" = Some gt ∧ d !! "start" = Some st ∧
             d !! "end" = Some en ∧ m ∈ sample_encapsulating gt st en ∧
             py_in_str "funcStack" m = true ∧
             ((TypeError = EvalError ∧ sample_eval m = None) ∨
              (TypeError = TypeError ∧
               ∃ x, sample_eval m = Some x ∧ ¬ funcStack_readable x))))))).
Proof.
  apply (X13_reconcile_raises sample_eval sample_encapsulating ["20"] TypeError).
  vm_compute. reflexivity.
Defined.

(** ** A whole run *)

Lemma main_markers_records (eval : string → option pyobj)
    (getEncapsulatingMarkers : pyval → pyval → pyval → list string)
    (ms : list (Z * list string)) (cs : list (Z * CpuKernel)) (e : option pyerr) :
  main_markers eval getEncapsulatingMarkers ms = (cs, e) →
  ∀ id k, (id, k) ∈ cs →
    ∃ txt, (id, txt) ∈ ms ∧ reconcile eval getEncapsulatingMarkers txt = Ok k.
Proof.
  revert cs e. induction ms as [|[marker txt] ms IH]; intros cs e; simpl.
  - intros [= <- _] id k ?%elem_of_nil. done.
  - destruct (reconcile _ _ txt) as [k0|e0] eqn:Hrec;
      [|intros [= <- _] id k ?%elem_of_nil; done].
    destruct (main_markers _ _ ms) as [out e1]. intros [= <- <-] id k Hin.
    apply elem_of_cons in Hin as [[= -> ->]|Hin].
    + exists txt. split; [left|done].
    + destruct (IH out e1 eq_refl id k Hin) as (txt' & Hin' & Hrec').
      exists txt'. split; [by right|done].
Qed.

(** X14: in a run that goes through both loops, every "cpu_kernel"
    record belongs to a marker that no printed kernel lists in [callid];
    it carries the text of that marker, a duration of 0, the name
    "cpu_kernel", process 0, and the thread (also as object id), start and
    end that the text of the marker gives. *)
Theorem X14_cpu_kernel_records
    (eval : string → option pyobj)
    (getEncapsulatingMarkers : pyval → pyval → pyval → list string)
    (kInfo : list Kernel) (all_markers : pydict)
    (r : Run) (cs : list (Z * CpuKernel)) (id : Z) (k : CpuKernel) :
  main eval getEncapsulatingMarkers kInfo all_markers = Finished r cs →
  (id, k) ∈ cs →
  py_map all_markers !! id = Some (marker_txt k) ∧
  (∀ k0, k0 ∈ printed r → id ∉ callid k0) ∧
  kDuration k = 0 ∧ kernelName k = "cpu_kernel" ∧ pid k = 0 ∧
  objId k = tid k ∧
  ∃ txt0 d,
    head (marker_txt k) = Some txt0 ∧ eval txt0 = Some (ODict d) ∧
    d !! "globalTid" = Some (tid k) ∧ d !! "start" = Some (rStartTime k) ∧
    d !! "end" = Some (rEndTime k).
Proof.
  intros [Hrun Hms]%main_Finished_inv Hin.
  pose proof (main_kernels_inv (py_map all_markers) _ _ _
                (run_inv_init init_fold (py_map all_markers)) Hrun)
    as (Hnd & Hmem & Hlook).
  destruct (main_markers_records _ _ _ _ _ Hms id k Hin) as (txt & Hin' & Hrec).
  apply leftover_elem in Hin' as [_ Hin']. rewrite Hlook in Hin'.
  case_decide as Hp; [done|].
  destruct (reconcile_inv _ _ _ _ Hrec)
    as (txt0 & d & Hh & Hev & Hg & Hs & He & _ & Hshape).
  assert (marker_txt k = txt) as Htxt by (by rewrite Hshape).
  split_and!.
  - by rewrite Htxt.
  - intros k0 Hk0 Hid. apply Hp, Hmem. split; [by eexists|by exists k0].
  - by rewrite Hshape.
  - by rewrite Hshape.
  - by rewrite Hshape.
  - by rewrite Hshape.
  - exists txt0, d. by rewrite Htxt.
Qed.

Lemma X14_cpu_kernel_records_witness :
  ∃ r cs k,
    main sample_eval sample_encapsulating
      [mkKernel [3] [] 0 "fprop" ["linear"] ["na"] [1; 1; 5]] sample_markers
      = Finished r cs ∧
    (2, k) ∈ cs ∧
    marker_txt k = ["{'globalTid': 1, 'start': 10, 'end': 20}"] ∧
    kDuration k = 0 ∧ kernelName k = "cpu_kernel" ∧ objId k = tid k.
Proof.
  eexists _, _, _. split; [vm_compute; reflexivity|]. split; [left|].
  edestruct (X14_cpu_kernel_records sample_eval sample_encapsulating
               [mkKernel [3] [] 0 "fprop" ["linear"] ["na"] [1; 1; 5]]
               sample_markers)
    as (_ & _ & Hd & Hn & _ & Ho & _);
    [vm_compute; reflexivity|left|].
  split; [reflexivity|]. exact (conj Hd (conj Hn Ho)).
Defined.

(** X15: a run that goes through both loops prints one record per
    kernel, and the "cpu_kernel" records and the markers popped for the
    kernels are together as many as the markers of the database. *)
Theorem X15_record_counts
    (eval : string → option pyobj)
    (getEncapsulatingMarkers : pyval → pyval → pyval → list string)
    (kInfo : list Kernel) (all_markers : pydict)
    (r : Run) (cs : list (Z * CpuKernel)) :
  main eval getEncapsulatingMarkers kInfo all_markers = Finished r cs →
  length (printed r) = length kInfo ∧
  (length cs + length (popped r))%nat = size (py_map all_markers).
Proof.
  intros [Hrun Hms]%main_Finished_inv.
  pose proof (main_kernels_inv (py_map all_markers) _ _ _
                (run_inv_init init_fold (py_map all_markers)) Hrun) as Hinv.
  pose proof Hinv as (Hnd & Hmem & Hlook).
  split; [by rewrite (main_kernels_printed_length _ _ _ Hrun)|].
  apply main_markers_ids in Hms.
  assert (length cs = size (markers r)) as ->.
  { rewrite <-(length_fmap fst cs), Hms, length_fmap.
    by apply leftover_length, run_inv_subseteq. }
  rewrite <-(size_dom (D := gset Z) (py_map all_markers)),
          <-(size_dom (D := gset Z) (markers r)).
  rewrite <-(size_list_to_set (C := gset Z) (popped r)) by done.
  rewrite <-size_union.
  - f_equal. apply set_eq. intros id.
    rewrite elem_of_union, !elem_of_dom, elem_of_list_to_set, Hlook.
    case_decide as Hp.
    + split; [|by right]. intros _. by apply Hmem in Hp as [? _].
    + split; [by intros [?|?]|by left].
  - apply elem_of_disjoint. intros id Hd Hp.
    apply elem_of_list_to_set in Hp. apply elem_of_dom in Hd.
    rewrite Hlook, decide_True in Hd by done. by destruct Hd.
Qed.

Lemma X15_record_counts_witness :
  ∃ r cs,
    main sample_eval sample_encapsulating
      [mkKernel [3] [] 0 "fprop" ["linear"] ["na"] [1; 1; 5]] sample_markers
      = Finished r cs ∧
    length (printed r) = 1%nat ∧
    (length cs + length (popped r))%nat = size (py_map sample_markers).
Proof.
  eexists _, _. split; [vm_compute; reflexivity|].
  eapply (X15_record_counts sample_eval sample_encapsulating
            [mkKernel [3] [] 0 "fprop" ["linear"] ["na"] [1; 1; 5]]
            sample_markers).
  vm_compute. reflexivity.
Defined.

Lemma kernel_step_raises_kind (st : FoldState) (k : Kernel) (e : pyerr) :
  kernel_step st k = Raise e → e = AssertionError ∨ e = IndexError.
Proof.
  intros Hstep.
  destruct (decide (seqId k = [])) as [Hnil|Hne];
    [by rewrite (kernel_step_empty st k Hnil) in Hstep|].
  destruct (decide (dir k ∈ ["fprop"; "bprop"])) as [Hdir|Hdir].
  - destruct (kernel_step_cases st k Hne Hdir) as [(st' & k' & Hs)|Hs];
      rewrite Hs in Hstep; [done|]. injection Hstep as <-. by right.
  - rewrite (kernel_step_assert st k Hne Hdir) in Hstep.
    injection Hstep as <-. by left.
Qed.

(** The loop of line 160 stops at the first marker, in the order of the
    list, whose record raises; the markers before it have their record. *)
Lemma main_markers_stops (eval : string → option pyobj)
    (getEncapsulatingMarkers : pyval → pyval → pyval → list string)
    (ms : list (Z * list string)) (cs : list (Z * CpuKernel)) (e : pyerr) :
  main_markers eval getEncapsulatingMarkers ms = (cs, Some e) →
  ∃ marker txt rest,
    ms.*1 = cs.*1 ++ marker :: rest ∧ (marker, txt) ∈ ms ∧
    reconcile eval getEncapsulatingMarkers txt = Raise e.
Proof.
  revert cs. induction ms as [|[marker txt] ms IH]; intros cs; simpl; [done|].
  destruct (reconcile _ _ txt) as [k0|e0] eqn:Hrec.
  - destruct (main_markers _ _ ms) as [out e1]. intros [= <- ->].
    destruct (IH out eq_refl) as (marker' & txt' & rest & Hids & Hin & Hr).
    exists marker', txt', rest.
    split_and!; [exact (f_equal (cons marker) Hids)|by right|done].
  - intros [= <- <-]. exists marker, txt, ms.*1. split_and!; [done|left|done].
Qed.

Lemma reconcile_raises_kind (eval : string → option pyobj)
    (getEncapsulatingMarkers : pyval → pyval → pyval → list string)
    (marker_txt : list string) (e : pyerr) :
  reconcile eval getEncapsulatingMarkers marker_txt = Raise e →
  e = IndexError ∨ e = EvalError ∨ e = KeyError ∨ e = TypeError.
Proof.
  unfold reconcile, py_index, py_eval.
  destruct (marker_txt !! 0%nat) as [txt0|]; simpl; [|intros [= <-]; by left].
  destruct (eval txt0) as [[d|x]|]; simpl;
    [|intros [= <-]; by right; right; right|intros [= <-]; by right; left].
  unfold py_getitem.
  destruct (d !! "globalTid") as [gt|]; simpl;
    [|intros [= <-]; by right; right; left].
  destruct (d !! "start") as [st|]; simpl;
    [|intros [= <-]; by right; right; left].
  destruct (d !! "end") as [en|]; simpl;
    [|intros [= <-]; by right; right; left].
  destruct (scan_funcStack eval (VList []) (getEncapsulatingMarkers gt st en))
    as [v|e'] eqn:Hscan; simpl; [done|].
  intros [= <-].
  apply scan_funcStack_Raise in Hscan as (m & _ & _ & [[-> _]|[-> _]]).
  - by right; left.
  - by right; right; right.
Qed.

Lemma filter_ext_elem {A} (P Q : A → Prop)
    `{!∀ x, Decision (P x)} `{!∀ x, Decision (Q x)} (l : list A) :
  (∀ x, x ∈ l → P x ↔ Q x) → filter P l = filter Q l.
Proof.
  induction l as [|a l IH]; intros Hl; [done|].
  assert (filter P l = filter Q l) as Hrest
    by (apply IH; intros x Hx; apply Hl; by right).
  destruct (decide (P a)) as [Ha|Ha].
  - rewrite !filter_cons_True; [by rewrite Hrest|by apply Hl; [left|]|done].
  - rewrite !filter_cons_False; [done| |done].
    intros HQ. apply Ha, Hl; [left|done].
Qed.

(** The markers left for the loop of line 160, in the order of the dict:
    the markers that no printed kernel lists in [callid]. *)
Lemma leftover_unlisted (d : pydict) (r : Run) :
  run_inv (py_map d) r →
  (leftover d (markers r)).*1
  = filter (λ id, Forall (λ k, id ∉ callid k) (printed r)) (py_items d).*1.
Proof.
  intros (_ & Hmem & Hlook). rewrite leftover_fst.
  apply filter_ext_elem. intros id Hid%py_map_keys.
  rewrite Hlook, Forall_forall. case_decide as Hp.
  - split; [by intros [? ?]|]. intros Hall.
    apply Hmem in Hp as (_ & k & Hk & Hc). by destruct (Hall k Hk).
  - split; [|done]. intros _ k Hk Hc. apply Hp, Hmem. split; [done|by exists k].
Qed.

(** X17: [main] leaves at line 64 exactly when there is no kernel.
    When it ends with an exception, either a kernel raised it, an
    assertion or an index error, the kernels before that one are printed
    and no "cpu_kernel" record is; or every kernel is printed and a marker
    raised it, an index, [eval], key or type error, with fewer
    "cpu_kernel" records printed than there are markers: the records are
    those of the markers that no kernel lists in [callid], in the order of
    the dict [markers], up to the marker that raised. *)
Theorem X17_main_endings
    (eval : string → option pyobj)
    (getEncapsulatingMarkers : pyval → pyval → pyval → list string)
    (kInfo : list Kernel) (all_markers : pydict) :
  (main eval getEncapsulatingMarkers kInfo all_markers = Exit0 ↔ kInfo = []) ∧
  (∀ ks cs e,
     main eval getEncapsulatingMarkers kInfo all_markers = Aborted ks cs e →
     ((length ks < length kInfo)%nat ∧ cs = [] ∧
      (e = AssertionError ∨ e = IndexError)) ∨
     (length ks = length kInfo ∧
      (length cs < size (py_map all_markers))%nat ∧
      (e = IndexError ∨ e = EvalError ∨ e = KeyError ∨ e = TypeError) ∧
      ∃ marker txt rest,
        filter (λ id, Forall (λ k, id ∉ callid k) ks) (py_items all_markers).*1
          = cs.*1 ++ marker :: rest ∧
        py_map all_markers !! marker = Some txt ∧
        reconcile eval getEncapsulatingMarkers txt = Raise e)).
Proof.
  unfold main. split.
  - case_decide as Hk; [done|]. split; [|done].
    destruct (main_kernels _ kInfo) as [r [e|]]; [done|].
    by destruct (main_markers _ _ _) as [cs [e|]].
  - intros ks cs e. case_decide as Hk; [done|].
    destruct (main_kernels _ kInfo) as [r [e1|]] eqn:Hrun.
    + intros [= <- <- <-]. left.
      apply main_kernels_stops in Hrun
        as (pre & k & post & -> & _ & Hstep & Hlen).
      split_and!; [|done|by eapply kernel_step_raises_kind].
      rewrite Hlen, length_app. simpl. lia.
    + destruct (main_markers _ _ _) as [cs' [e1|]] eqn:Hms; [|done].
      intros [= <- <- <-]. right.
      pose proof (main_kernels_inv (py_map all_markers) _ _ _
                    (run_inv_init init_fold (py_map all_markers)) Hrun)
        as Hinv.
      pose proof (run_inv_subseteq _ _ Hinv) as Hsub.
      apply main_markers_stops in Hms
        as (marker & txt & rest & Hids & Hin & Hrec).
      split_and!.
      * by rewrite (main_kernels_printed_length _ _ _ Hrun).
      * pose proof (leftover_length all_markers (markers r) Hsub) as Hlen.
        rewrite <-(length_fmap fst), Hids, length_app, length_fmap in Hlen.
        simpl in Hlen. apply map_subseteq_size in Hsub. lia.
      * by eapply reconcile_raises_kind.
      * exists marker, txt, rest. split_and!; [|
          |done].
        -- by rewrite <-(leftover_unlisted all_markers r Hinv).
        -- apply leftover_elem in Hin as [_ Hin].
           by apply (proj1 (map_subseteq_spec _ _) Hsub).
Qed.

(** ** [subSeqId] at the start of a run *)

Lemma subseq_cond_no_list (c : Z) (st : FoldState) (k : Kernel) (s : string) (b : bool) :
  prevOp st = OpStr s → subseq_cond c st k = Ok b → b = false.
Proof.
  intros Hop. unfold subseq_cond. rewrite Hop. simpl. rewrite !andb_false_r.
  destruct (op k) as [|op0 ops]; simpl; [done|].
  rewrite andb_false_r. by intros [= <-].
Qed.

(** X18: the first kernel of a run that has sequence ids keeps the
    [subSeqId] it came with: before it [prevOp] is the string "na", which
    is no list of tokens, so the test of line 125 is false whatever the
    kernel is. *)
Theorem X18_first_kernel_keeps_subSeqId (m0 : gmap Z (list string))
    (pre : list Kernel) (k : Kernel) (r : Run) :
  Forall (λ k0, seqId k0 = []) pre → seqId k ≠ [] →
  main_kernels (mkRun init_fold m0 [] []) (pre ++ [k]) = (r, None) →
  ∃ k', last (printed r) = Some k' ∧ subSeqId k' = subSeqId k ∧
        prevSubSeqId (fstate r) = subSeqId k.
Proof.
  intros Hpre Hne. rewrite main_kernels_app.
  destruct (main_kernels_empty_seqIds (mkRun init_fold m0 [] []) pre Hpre)
    as (rp & -> & Hst). simpl in *.
  destruct (kernel_iter rp k) as [r'|e] eqn:Hit; [|done]. intros [= <-].
  apply kernel_iter_Ok_inv in Hit as (st' & k' & Hstep & Hfs & Hpr).
  exists k'. rewrite Hpr, last_snoc, Hfs. split; [done|].
  apply kernel_step_inv in Hstep
    as [(Hnil & _)|(s0 & c & b & s1 & mv & a2 & _ & _ & _ & _ & _ & Hcond & -> & -> & _)];
    [done|].
  assert (b = false) as ->; [|done].
  eapply (subseq_cond_no_list c (fstate rp)); [|done]. by rewrite Hst.
Qed.

Lemma X18_first_kernel_keeps_subSeqId_witness :
  ∃ k', last (printed (mkRun (mkFold 4 0 (OpList ["relu"])) ∅ [sample_relu] []))
        = Some k' ∧
        subSeqId k' = subSeqId sample_relu ∧
        prevSubSeqId (fstate (mkRun (mkFold 4 0 (OpList ["relu"])) ∅ [sample_relu] []))
        = subSeqId sample_relu.
Proof.
  apply (X18_first_kernel_keeps_subSeqId ∅ [] sample_relu
           (mkRun (mkFold 4 0 (OpList ["relu"])) ∅ [sample_relu] [])).
  - constructor.
  - done.
  - vm_compute. reflexivity.
Defined.

(** ** [altSeqId] at the end *)

Lemma StronglySorted_lt_NoDup (l : list Z) : StronglySorted Z.lt l → NoDup l.
Proof.
  induction 1 as [|a l Hs IH Hall]; constructor; [|done].
  intros Hin. rewrite Forall_forall in Hall. specialize (Hall a Hin). lia.
Qed.

(** X19: lines 144-146 give the one strictly ascending list that has
    the ids of [altSeqId]: the result depends on which ids are in the
    list, not on their order or on how often they are in it. *)
Theorem X19_list_set_sort_unique (l l' : list Z) :
  StronglySorted Z.lt l' → (∀ x, x ∈ l' ↔ x ∈ l) → list_set_sort l = l'.
Proof.
  intros Hs Hel.
  apply (StronglySorted_unique_strong Z.lt).
  - intros x1 x2 _ _ H1 H2. lia.
  - apply list_set_sort_ascending.
  - done.
  - apply NoDup_Permutation.
    + apply StronglySorted_lt_NoDup, list_set_sort_ascending.
    + by apply StronglySorted_lt_NoDup.
    + intros x. by rewrite elem_of_list_set_sort, Hel.
Qed.

Lemma X19_list_set_sort_unique_witness : list_set_sort [7; 2; 7; 4; 2] = [2; 4; 7].
Proof.
  apply (X19_list_set_sort_unique [7; 2; 7; 4; 2] [2; 4; 7]).
  - repeat constructor; lia.
  - intros x. rewrite !elem_of_cons, !elem_of_nil. tauto.
Defined.

(** ** The markers popped for one kernel *)

(** X20: what the loop of line 151 leaves in [markers] and which ids
    it pops depend on which ids are in [callid], not on their order or on
    repetitions; and running the loop again for the same kernel pops
    nothing more. *)
Theorem X20_pop_callids_by_set (cs1 cs2 : list Z) (m : gmap Z (list string)) :
  (∀ id, id ∈ cs1 ↔ id ∈ cs2) →
  (pop_callids cs1 m).1 = (pop_callids cs2 m).1 ∧
  (pop_callids cs1 m).2 ≡ₚ (pop_callids cs2 m).2 ∧
  pop_callids cs1 (pop_callids cs1 m).1 = ((pop_callids cs1 m).1, []).
Proof.
  intros Hset.
  destruct (pop_callids_spec cs1 m) as (Hl1 & Hn1 & Hm1).
  destruct (pop_callids_spec cs2 m) as (Hl2 & Hn2 & Hm2).
  destruct (pop_callids_spec cs1 (pop_callids cs1 m).1) as (Hl3 & Hn3 & Hm3).
  split_and!.
  - apply map_eq. intros id. rewrite Hl1, Hl2.
    destruct (decide (id ∈ cs1)) as [H1|H1].
    + rewrite decide_True; [done|]. by apply Hset.
    + rewrite decide_False; [done|]. by rewrite <-Hset.
  - apply NoDup_Permutation; [done..|].
    intros id. by rewrite Hm1, Hm2, Hset.
  - destruct (pop_callids cs1 (pop_callids cs1 m).1) as [m3 pops3] eqn:Heq.
    simpl in *. f_equal.
    + apply map_eq. intros id. rewrite Hl3. case_decide as Hin; [|done].
      by rewrite Hl1, decide_True.
    + destruct pops3 as [|id pops3]; [done|].
      assert (id ∈ id :: pops3) as Hid by left.
      apply Hm3 in Hid as [Hin Hs]. rewrite Hl1, decide_True in Hs by done.
      by destruct Hs.
Qed.

Lemma X20_pop_callids_by_set_witness :
  (pop_callids [1; 5; 1] {[ 1 := ["a"]; 2 := ["b"] ]}).1
  = (pop_callids [5; 1] {[ 1 := ["a"]; 2 := ["b"] ]}).1 ∧
  (pop_callids [1; 5; 1] {[ 1 := ["a"]; 2 := ["b"] ]}).2
  ≡ₚ (pop_callids [5; 1] {[ 1 := ["a"]; 2 := ["b"] ]}).2 ∧
  pop_callids [1; 5; 1] (pop_callids [1; 5; 1] {[ 1 := ["a"]; 2 := ["b"] ]}).1
  = ((pop_callids [1; 5; 1] {[ 1 := ["a"]; 2 := ["b"] ]}).1, []).
Proof.
  apply (X20_pop_callids_by_set [1; 5; 1] [5; 1] {[ 1 := ["a"]; 2 := ["b"] ]}).
  intros id. rewrite !elem_of_cons, !elem_of_nil. tauto.
Defined.
